(** * imapsrv: the command layer and the LIST resolver of an IMAP4rev1 server

    A shallow embedding of [command.go] (the command variants and their
    helpers) and of the string-path version of [session.go] (the session
    state machine and the mailbox pattern resolver), followed by the
    properties of the written specification that were checked on it.

    Conventions of the embedding
    - a Go [string] is a [string] (a sequence of 8-bit characters), a Go
      [int] is a [Z]; [len(s)-1] is computed in [Z] and may be [-1];
    - indexing and slicing out of range panic, as the Go runtime does;
      pure helpers that may panic return a [result];
    - code that mutates the session, writes to the log or calls the
      Mailstore runs in the monad [M] over a [machine]: the session, the
      chronological list of Mailstore calls and the logged messages;
    - the recursive directory walk carries a fuel argument, because the
      Mailstore is an arbitrary collaborator and may describe a hierarchy
      of unbounded depth. *)

From Stdlib Require Import ZArith List String Ascii Bool Lia DecimalString.
From Stdlib Require Import Permutation.
Import ListNotations.

Local Open Scope string_scope.
Local Open Scope Z_scope.

(* ===================================================================== *)
(** ** Go runtime: strings, indexing, slicing, panics                    *)
(* ===================================================================== *)

(** The value of a pure computation, or a run-time panic. *)
Inductive result (A : Type) : Type :=
| Val (a : A)
| Panic.
Arguments Val {A} a.
Arguments Panic {A}.

Definition rbind {A B : Type} (r : result A) (k : A -> result B) : result B :=
  match r with
  | Val a => k a
  | Panic => Panic
  end.

Declare Scope result_scope.
Delimit Scope result_scope with result.
Notation "x <- e ;; k" := (rbind e (fun x => k))
  (at level 61, e at next level, right associativity) : result_scope.

(** [len(s)] *)
Definition len (s : string) : Z := Z.of_nat (String.length s).

(** [s[i]]: panics unless [0 <= i < len(s)]. *)
Definition index_at (s : string) (i : Z) : result ascii :=
  if (i <? 0) || (len s <=? i) then Panic
  else match String.get (Z.to_nat i) s with
       | Some c => Val c
       | None => Panic
       end.

(** [s[lo:hi]]: panics unless [0 <= lo <= hi <= len(s)]. *)
Definition slice (s : string) (lo hi : Z) : result string :=
  if (lo <? 0) || (hi <? lo) || (len s <? hi) then Panic
  else Val (String.substring (Z.to_nat lo) (Z.to_nat (hi - lo)) s).

(** [strings.LastIndex(s, sep)]: the index of the last occurrence of [sep]
    in [s], or [-1]. [lastIndexFrom] scans [s] from the left, [i] being the
    index of the current position and [acc] the last match seen so far. *)
Fixpoint lastIndexFrom (s sep : string) (i acc : Z) : Z :=
  let acc' := if String.prefix sep s then i else acc in
  match s with
  | EmptyString => acc'
  | String _ s' => lastIndexFrom s' sep (i + 1) acc'
  end.

Definition strings_LastIndex (s sep : string) : Z := lastIndexFrom s sep 0 (-1).

(** [strings.Join(elems, sep)] *)
Definition strings_Join (elems : list string) (sep : string) : string :=
  String.concat sep elems.

(** Decimal rendering of an integer, as the verbs [%d] and [fmt.Sprint] do. *)
Definition itoa (n : Z) : string := NilZero.string_of_int (Z.to_int n).

(** The byte value of a character, as Go sees a rune constant. *)
Definition rune (c : ascii) : Z := Z.of_N (N_of_ascii c).

(** What [fmt] prints for the verb [%s] applied to an operand of type
    [int32]: the verb is not defined for integers, so the bad-verb form
    [%!s(int32=N)] is produced. *)
Definition Sprintf_s_int32 (r : Z) : string :=
  "%!s(int32=" ++ itoa r ++ ")".

(** The double quote character of the response formats. *)
Definition dquote : string := String (ascii_of_nat 34) EmptyString.

(* ===================================================================== *)
(** ** command.go: path delimiter helpers                                *)
(* ===================================================================== *)

(** [const pathDelimiter = '/'] *)
Definition pathDelimiter : ascii := "/"%char.

(** [string(pathDelimiter)] *)
Definition pathDelimiterString : string := String pathDelimiter EmptyString.

(** [addTrailingDelimiter]: the index [len(s)-1] is [-1] on the empty
    string, where the function panics. *)
Definition addTrailingDelimiter (s : string) : result string :=
  (c <- index_at s (len s - 1) ;;
   if negb (Ascii.eqb c pathDelimiter)
   then Val (s ++ pathDelimiterString)
   else Val s)%result.

(** [removeDelimiters] *)
Definition removeDelimiters (s : string) : result string :=
  (let start := 0 in
   let end_ := len s in
   c0 <- index_at s 0 ;;
   let start := if Ascii.eqb c0 pathDelimiter then 1 else start in
   c1 <- index_at s (end_ - 1) ;;
   let end_ := if Ascii.eqb c1 pathDelimiter then end_ - 1 else end_ in
   if 0 <? end_ - start
   then slice s start end_
   else Val EmptyString)%result.

(* ===================================================================== *)
(** ** Data model                                                        *)
(* ===================================================================== *)

(** A Go [error], identified with the text of [err.Error()]. *)
Definition error : Type := string.

(** Modelled from the spec: the [Mailbox] struct is declared outside the
    files at hand. The code reads its fields [Name], [Path], [Id] and
    [Flags]; the spec gives it a numeric id, a leaf name, a fully-qualified
    path and a flag bitmask. *)
Record Mailbox : Type := mkMailbox {
  Name : string;
  Path : string;
  Id : Z;
  Flags : Z
}.

(** Modelled from the spec: the [Mailstore] interface is declared outside
    the files at hand. Every method returns a value and an error, as in Go;
    the code tests the error first. A Mailstore is taken as a read-only
    snapshot: the answer to a query depends on its argument only. *)
Record Mailstore : Type := mkMailstore {
  GetMailbox : string -> option Mailbox * option error;
  GetMailboxes : string -> list Mailbox * option error;
  FirstUnseen : Z -> Z * option error;
  TotalMessages : Z -> Z * option error;
  RecentMessages : Z -> Z * option error;
  NextUid : Z -> Z * option error
}.

(** Modelled from the spec: the [Config] struct is declared outside the
    files at hand; the code reads its field [Mailstore]. *)
Record Config : Type := mkConfig {
  config_Mailstore : Mailstore
}.

(** IMAP session states ([type state int] with three [iota] constants). *)
Inductive state : Type :=
| notAuthenticated
| authenticated
| selected.

Definition state_eqb (a b : state) : bool :=
  match a, b with
  | notAuthenticated, notAuthenticated => true
  | authenticated, authenticated => true
  | selected, selected => true
  | _, _ => false
  end.

(** An IMAP session. [mailbox] is a pointer in the source, [nil] until a
    mailbox is selected. *)
Record session : Type := mkSession {
  id : Z;
  st : state;
  mailbox : option Mailbox;
  config : Config
}.

Definition set_st (s : session) (v : state) : session :=
  mkSession (id s) v (mailbox s) (config s).

Definition set_mailbox (s : session) (v : option Mailbox) : session :=
  mkSession (id s) (st s) v (config s).

(** [createSession] *)
Definition createSession (i : Z) (cfg : Config) : session :=
  mkSession i notAuthenticated None cfg.

(** Modelled from the spec: the response type and its constructors are
    declared outside the files at hand. A response has a tag, a status among
    OK, NO and BAD, a completion message, the ordered untagged lines and the
    close-after-send flag. *)
Inductive status : Type := OK | NO | BAD.

(** Modelled from the spec: the fields of a response, as listed above. *)
Record response : Type := mkResponse {
  tag : string;
  condition : status;
  message : string;
  untagged : list string;
  closeConnection : bool
}.

(** Modelled from the spec: [ok], [bad] and [no] build a response with no
    untagged line and the close flag unset. *)
Definition ok (t msg : string) : response := mkResponse t OK msg [] false.
Definition bad (t msg : string) : response := mkResponse t BAD msg [] false.
Definition no (t msg : string) : response := mkResponse t NO msg [] false.

(** Modelled from the spec: [extra] appends one untagged line after those
    already present. *)
Definition extra (r : response) (line : string) : response :=
  mkResponse (tag r) (condition r) (message r) (untagged r ++ [line])
             (closeConnection r).

(** Modelled from the spec: [shouldClose] sets the close-after-send flag. *)
Definition shouldClose (r : response) : response :=
  mkResponse (tag r) (condition r) (message r) (untagged r) true.

(** Modelled from the spec: the table [mailboxFlags], from flag bit to wire
    token, is declared outside the files at hand. Go leaves the iteration
    order of a map unspecified; the association list stands for the order
    of one iteration. *)
Class FlagVocabulary : Type := {
  mailboxFlags : list (Z * string)
}.

(** The two operations of Go's [regexp] package that the resolver uses.
    [regexp_Compile] returns a compiled expression or an error. *)
Class RegexpLib : Type := {
  Regexp : Type;
  regexp_Compile : string -> Regexp + error;
  MatchString : Regexp -> string -> bool
}.

(* ===================================================================== *)
(** ** The machine: session, Mailstore calls, log                        *)
(* ===================================================================== *)

(** One call to the Mailstore collaborator. *)
Inductive call : Type :=
| CallGetMailbox (name : string)
| CallGetMailboxes (path : string)
| CallFirstUnseen (mailboxId : Z)
| CallTotalMessages (mailboxId : Z)
| CallRecentMessages (mailboxId : Z)
| CallNextUid (mailboxId : Z).

Record machine : Type := mkMachine {
  sess : session;
  calls : list call;      (* oldest first *)
  logged : list string    (* oldest first, without the time stamp *)
}.

Inductive outcome (A : Type) : Type :=
| Done (a : A) (m : machine)
| Panicked
| OutOfFuel.
Arguments Done {A} a m.
Arguments Panicked {A}.
Arguments OutOfFuel {A}.

Definition M (A : Type) : Type := machine -> outcome A.

Definition ret {A : Type} (a : A) : M A := fun m => Done a m.

Definition bind {A B : Type} (c : M A) (k : A -> M B) : M B :=
  fun m => match c m with
           | Done a m' => k a m'
           | Panicked => Panicked
           | OutOfFuel => OutOfFuel
           end.

Definition lift {A : Type} (r : result A) : M A :=
  fun m => match r with
           | Val a => Done a m
           | Panic => Panicked
           end.

Declare Scope go_scope.
Delimit Scope go_scope with go.
Notation "x <- e ;; k" := (bind e (fun x => k))
  (at level 61, e at next level, right associativity) : go_scope.
Notation "e ;;; k" := (bind e (fun _ => k))
  (at level 61, right associativity) : go_scope.

Definition get_sess : M session := fun m => Done (sess m) m.

Definition put_sess (s : session) : M unit :=
  fun m => Done tt (mkMachine s (calls m) (logged m)).

(** [log.Print(args...)]: the operands are strings, which [Print]
    concatenates. *)
Definition log_Print (text : string) : M unit :=
  fun m => Done tt (mkMachine (sess m) (calls m) (logged m ++ [text])).

(** A call to the Mailstore held by the session's configuration. *)
Definition mailstore_call {A : Type} (c : call) (f : Mailstore -> A) : M A :=
  fun m => Done (f (config_Mailstore (config (sess m))))
                (mkMachine (sess m) (calls m ++ [c]) (logged m)).

(* ===================================================================== *)
(** ** session.go                                                        *)
(* ===================================================================== *)

Local Open Scope go_scope.

(** [session.log] *)
Definition session_log (info : string) : M unit :=
  s <- get_sess ;;
  let preamble := "IMAP (" ++ itoa (id s) ++ ") " in
  log_Print (preamble ++ info).

(** [session.selectMailbox]: returns whether the mailbox exists, and the
    error. *)
Definition session_selectMailbox (name : string) : M (bool * option error) :=
  r <- mailstore_call (CallGetMailbox name) (fun ms => GetMailbox ms name) ;;
  match r with
  | (_, Some err) => ret (false, Some err)
  | (None, None) => ret (false, None)
  | (Some mbox, None) =>
      s <- get_sess ;;
      put_sess (set_mailbox s (Some mbox)) ;;;
      ret (true, None)
  end.

(** [session.addMailboxInfo]. [s.mailbox.Id] dereferences the selected
    mailbox and panics when there is none. *)
Definition mailbox_Id : M Z :=
  s <- get_sess ;;
  match mailbox s with
  | Some mbox => ret (Id mbox)
  | None => fun _ => Panicked
  end.

Definition addMailboxInfo (resp : response) : M (response * option error) :=
  i <- mailbox_Id ;;
  r <- mailstore_call (CallFirstUnseen i) (fun ms => FirstUnseen ms i) ;;
  match r with
  | (_, Some err) => ret (resp, Some err)
  | (firstUnseen, None) =>
  i <- mailbox_Id ;;
  r <- mailstore_call (CallTotalMessages i) (fun ms => TotalMessages ms i) ;;
  match r with
  | (_, Some err) => ret (resp, Some err)
  | (totalMessages, None) =>
  i <- mailbox_Id ;;
  r <- mailstore_call (CallRecentMessages i) (fun ms => RecentMessages ms i) ;;
  match r with
  | (_, Some err) => ret (resp, Some err)
  | (recentMessages, None) =>
  i <- mailbox_Id ;;
  r <- mailstore_call (CallNextUid i) (fun ms => NextUid ms i) ;;
  match r with
  | (_, Some err) => ret (resp, Some err)
  | (nextUid, None) =>
  let resp := extra resp (itoa totalMessages ++ " EXISTS") in
  let resp := extra resp (itoa recentMessages ++ " RECENT") in
  let resp := extra resp ("OK [UNSEEN " ++ itoa firstUnseen ++ "] Message "
                          ++ itoa firstUnseen ++ " is first unseen") in
  i <- mailbox_Id ;;
  let resp := extra resp ("OK [UIDVALIDITY " ++ itoa i ++ "] UIDs valid") in
  let resp := extra resp ("OK [UIDNEXT " ++ itoa nextUid
                          ++ "] Predicted next UID") in
  ret (resp, None)
  end end end end.

Section Resolver.

Context {RL : RegexpLib}.

(** The body of the [for] loop of [session.listMailboxes] over the
    mailboxes still to visit, [ret] being the slice built so far. [self] is
    the recursive call [s.listMailboxes(nextPath, nil, true)]. *)
Fixpoint listMailboxes_loop
    (self : string -> M (list Mailbox * option error))
    (path : string) (mboxRe : option Regexp) (recursive : bool)
    (current : list Mailbox) (ret_ : list Mailbox)
    : M (list Mailbox * option error) :=
  match current with
  | [] => ret (ret_, None)
  | mbox :: rest =>
      (* Is there a pattern to match? *)
      if match mboxRe with
         | Some re => negb (MatchString re (Name mbox))
         | None => false
         end
      then listMailboxes_loop self path mboxRe recursive rest ret_
      else
        (* Add the mailbox to the results *)
        let ret_ := (ret_ ++ [mbox])%list in
        (* Is this a recursive listing? *)
        if recursive then
          c <- lift (index_at path (len path - 1)) ;;
          let nextPath :=
            if Ascii.eqb c pathDelimiter
            then path ++ Name mbox
            else path ++ "/" ++ Name mbox in
          r <- self nextPath ;;
          match r with
          | (_, Some err) => ret ([], Some err)
          | (next, None) =>
              listMailboxes_loop self path mboxRe recursive rest (ret_ ++ next)%list
          end
        else listMailboxes_loop self path mboxRe recursive rest ret_
  end.

(** [session.listMailboxes]. Each level of the recursion consumes one unit
    of fuel. *)
Fixpoint listMailboxes (fuel : nat) (path : string) (mboxRe : option Regexp)
    (recursive : bool) : M (list Mailbox * option error) :=
  match fuel with
  | O => fun _ => OutOfFuel
  | S fuel' =>
      log_Print ("listMailboxes " ++ path) ;;;
      r <- mailstore_call (CallGetMailboxes path)
                          (fun ms => GetMailboxes ms path) ;;
      match r with
      | (_, Some err) => ret ([], Some err)
      | (current, None) =>
          listMailboxes_loop (fun p => listMailboxes fuel' p None true)
                             path mboxRe recursive current []
      end
  end.

(** [session.list] *)
Definition session_list (fuel : nat) (reference mboxPattern : string)
    : M (list Mailbox * option error) :=
  (* Will this be a recursive listing? *)
  let lastIndex := len mboxPattern - 1 in
  c <- lift (index_at mboxPattern lastIndex) ;;
  let recursive := Ascii.eqb c "*" in
  let path := reference in
  (* Does the mailbox end in a wildcard? *)
  c <- lift (index_at mboxPattern lastIndex) ;;
  if Ascii.eqb c "*" || Ascii.eqb c "%" then
    (* Build the mailbox path *)
    let lastDelimiter := strings_LastIndex mboxPattern pathDelimiterString in
    mboxPathPart <- (if 0 <? lastDelimiter
                     then lift (slice mboxPattern 0 lastDelimiter)
                     else ret EmptyString) ;;
    let path := path ++ mboxPathPart in
    (* Convert the wildcard into a regular expression *)
    expr <- (if len mboxPattern =? 1 then ret ".*"
             else if 0 <? lastDelimiter then
               pre <- lift (slice mboxPattern lastDelimiter (lastIndex - 1)) ;;
               ret (pre ++ ".*")
             else
               pre <- lift (slice mboxPattern 0 (lastIndex - 1)) ;;
               ret (pre ++ ".*")) ;;
    match regexp_Compile expr with
    | inr err => ret ([], Some err)
    | inl mboxRe => listMailboxes fuel path (Some mboxRe) recursive
    end
  else
    (* Build the mailbox path *)
    let path := path ++ mboxPattern in
    listMailboxes fuel path None recursive.

End Resolver.

(* ===================================================================== *)
(** ** command.go: the commands                                          *)
(* ===================================================================== *)

(** The command variants, each with the fields of its struct. *)
Inductive command : Type :=
| noop (tag : string)
| capability (tag : string)
| login (tag userId password : string)
| logout (tag : string)
| selectMailbox (tag mailbox : string)
| list_command (tag reference mboxPattern : string)
| unknown (tag cmd : string).

(** [internalError] *)
Definition internalError (t commandName : string) (err : error) : M response :=
  let message := commandName ++ " " ++ err in
  session_log message ;;;
  ret (shouldClose (no t message)).

(** [mustAuthenticate] *)
Definition mustAuthenticate (t commandName : string) : M response :=
  let message := commandName ++ " not authenticated" in
  session_log message ;;;
  ret (bad t message).

(** [noop.execute] *)
Definition noop_execute (t : string) : M response :=
  ret (ok t "NOOP Completed").

(** [capability.execute] *)
Definition capability_execute (t : string) : M response :=
  ret (extra (ok t "CAPABILITY completed") "CAPABILITY IMAP4rev1").

(** [login.execute]: the password is not read. *)
Definition login_execute (t userId password : string) : M response :=
  s <- get_sess ;;
  if negb (state_eqb (st s) notAuthenticated) then
    let message := "LOGIN already logged in" in
    session_log message ;;;
    ret (bad t message)
  else if String.eqb userId "test" then
    s <- get_sess ;;
    put_sess (set_st s authenticated) ;;;
    ret (ok t "LOGIN completed")
  else
    ret (no t "LOGIN failure").

(** [logout.execute] *)
Definition logout_execute (t : string) : M response :=
  s <- get_sess ;;
  put_sess (set_st s notAuthenticated) ;;;
  ret (shouldClose (extra (ok t "LOGOUT completed")
                          "BYE IMAP4rev1 Server logging out")).

(** [selectMailbox.execute] *)
Definition selectMailbox_execute (t mbox : string) : M response :=
  s <- get_sess ;;
  if negb (state_eqb (st s) authenticated) then
    mustAuthenticate t "SELECT"
  else
    r <- session_selectMailbox mbox ;;
    match r with
    | (_, Some err) => internalError t "SELECT" err
    | (false, None) => ret (no t "SELECT No such mailbox")
    | (true, None) =>
        let res := ok t "SELECT completed" in
        r <- addMailboxInfo res ;;
        match r with
        | (_, Some err) => internalError t "SELECT" err
        | (res, None) => ret res
        end
    end.

(** [unknown.execute] *)
Definition unknown_execute (t cmd : string) : M response :=
  let message := cmd ++ " unknown command" in
  session_log message ;;;
  ret (bad t message).

Section Commands.

Context {RL : RegexpLib} {FV : FlagVocabulary}.

(** [len(mboxes) == 0] *)
Definition len_list_is_zero (l : list Mailbox) : bool :=
  Z.of_nat (List.length l) =? 0.

(** [joinMailboxFlags]. The source ranges over the map [mailboxFlags]; Go
    leaves the order of that iteration unspecified, and it may differ from
    one call to the next. The order of the table stands for the order of
    one iteration, so what is stated of the text of a flag list is stated
    up to the order of its tokens. *)
Definition joinMailboxFlags (m : Mailbox) : string :=
  let flags :=
    map snd (filter (fun entry => negb (Z.land (Flags m) (fst entry) =? 0))
                    mailboxFlags) in
  strings_Join flags ",".

(** The untagged line of one listed mailbox. [pathDelimiter] is a rune
    constant and reaches [Sprintf] as an [int32] under the verb [%s]. *)
Definition list_line (flags path : string) : string :=
  "LIST (" ++ flags ++ ") " ++ dquote ++ Sprintf_s_int32 (rune pathDelimiter)
           ++ dquote ++ " " ++ path.

(** [list.execute]. The assignments to [c.reference] and [c.mboxPattern]
    are kept as local rebinding. *)
Definition list_execute (fuel : nat) (t reference mboxPattern : string)
    : M response :=
  s <- get_sess ;;
  if negb (state_eqb (st s) authenticated) then
    mustAuthenticate t "LIST"
  else if String.eqb mboxPattern EmptyString then
    let res := ok t "LIST completed" in
    let res := extra res ("LIST () " ++ dquote
                            ++ Sprintf_s_int32 (rune pathDelimiter)
                            ++ dquote ++ " " ++ reference) in
    ret res
  else
    (* Add a trailing delimiter to the reference *)
    reference <- lift (addTrailingDelimiter reference) ;;
    (* Remove leading and trailing delimiters from the mboxPattern *)
    mboxPattern <- lift (removeDelimiters mboxPattern) ;;
    (* Get the list of mailboxes *)
    r <- session_list fuel reference mboxPattern ;;
    match r with
    | (_, Some err) => internalError t "LIST" err
    | (mboxes, None) =>
        if len_list_is_zero mboxes then ret (no t "LIST no results")
        else
          let res := ok t "LIST completed" in
          ret (fold_left
                 (fun res mbox =>
                    extra res (list_line (joinMailboxFlags mbox) (Path mbox)))
                 mboxes res)
    end.

(** [command.execute], dispatched on the variant. *)
Definition execute (fuel : nat) (c : command) : M response :=
  match c with
  | noop t => noop_execute t
  | capability t => capability_execute t
  | login t u p => login_execute t u p
  | logout t => logout_execute t
  | selectMailbox t mbox => selectMailbox_execute t mbox
  | list_command t reference mboxPattern =>
      list_execute fuel t reference mboxPattern
  | unknown t cmd => unknown_execute t cmd
  end.

End Commands.

(* ===================================================================== *)
(** ** Vocabulary of the specification                                   *)
(* ===================================================================== *)

(** The last character of a string, if any. *)
Fixpoint last_char (s : string) : option ascii :=
  match s with
  | EmptyString => None
  | String c EmptyString => Some c
  | String _ s' => last_char s'
  end.


(** The pattern contains neither [*] nor [%]. *)
Fixpoint no_wildcard (s : string) : bool :=
  match s with
  | EmptyString => true
  | String c s' =>
      negb (Ascii.eqb c "*") && negb (Ascii.eqb c "%") && no_wildcard s'
  end.

(** [sub] occurs in [s]. *)
Fixpoint occurs (sub s : string) : bool :=
  String.prefix sub s ||
  match s with
  | EmptyString => false
  | String _ s' => occurs sub s'
  end.

(** The position of a line among the untagged lines. *)
Fixpoint position (line : string) (lines : list string) : option nat :=
  match lines with
  | [] => None
  | l :: rest =>
      if String.eqb l line then Some O
      else option_map S (position line rest)
  end.

(** The error, if any, with which the Mailstore answers a call. *)
Definition call_error (ms : Mailstore) (c : call) : option error :=
  match c with
  | CallGetMailbox name => snd (GetMailbox ms name)
  | CallGetMailboxes path => snd (GetMailboxes ms path)
  | CallFirstUnseen i => snd (FirstUnseen ms i)
  | CallTotalMessages i => snd (TotalMessages ms i)
  | CallRecentMessages i => snd (RecentMessages ms i)
  | CallNextUid i => snd (NextUid ms i)
  end.

(** A child is kept when there is no filter expression or the expression
    matches its leaf name. *)
Definition kept {RL : RegexpLib} (mboxRe : option Regexp) (mbox : Mailbox)
    : bool :=
  match mboxRe with
  | Some re => MatchString re (Name mbox)
  | None => true
  end.

(** The path of a child: the parent path and the leaf name, joined by one
    delimiter. *)
Definition child_path (path name : string) : string :=
  match last_char path with
  | Some c => if Ascii.eqb c pathDelimiter
              then path ++ name
              else path ++ "/" ++ name
  | None => path ++ "/" ++ name
  end.

(** A finite mailbox hierarchy: a mailbox and the hierarchies of its
    children, in the order of the Mailstore. *)
#[warnings="-register-all"]
Inductive mtree : Type :=
| MNode (root : Mailbox) (children : list mtree).

Definition root_of (t : mtree) : Mailbox :=
  match t with MNode r _ => r end.

Definition children_of (t : mtree) : list mtree :=
  match t with MNode _ cs => cs end.

(** Pre-order: a mailbox, then the pre-order of each child in turn. *)
Fixpoint preorder (t : mtree) : list Mailbox :=
  match t with
  | MNode r cs => r :: flat_map preorder cs
  end.

Fixpoint depth (t : mtree) : nat :=
  match t with
  | MNode _ cs => S (fold_right (fun c d => Nat.max (depth c) d) O cs)
  end.

Definition depth_forest (ts : list mtree) : nat :=
  fold_right (fun c d => Nat.max (depth c) d) O ts.

(** [stored ms path forest]: the Mailstore answers the query at [path] with
    the roots of [forest], and so on below each of them, without error. *)
Inductive stored (ms : Mailstore) : string -> list mtree -> Prop :=
| stored_level path forest :
    GetMailboxes ms path = (map root_of forest, None) ->
    (forall t, In t forest ->
       stored ms (child_path path (Name (root_of t))) (children_of t)) ->
    stored ms path forest.

(** The machine after [listMailboxes] logged its path and queried it. *)
Definition after_query (m : machine) (path : string) : machine :=
  mkMachine (sess m) (calls m ++ [CallGetMailboxes path])
            (logged m ++ ["listMailboxes " ++ path]).

(** The outcome of a traversal that made the calls [trace]: either no call
    failed, or the last call is the only one that failed, its error is the
    result and no mailbox comes with it. *)
Definition stops_at_first_error (ms : Mailstore) (trace : list call)
    (ret_ : list Mailbox) (oerr : option error) : Prop :=
  match oerr with
  | Some err =>
      ret_ = [] /\
      exists (before : list call) (p : string),
        trace = (before ++ [CallGetMailboxes p])%list /\
        snd (GetMailboxes ms p) = Some err /\
        Forall (fun c => call_error ms c = None) before
  | None => Forall (fun c => call_error ms c = None) trace
  end.

(** A computation of the resolver that leaves the session alone, only adds
    calls to the trace, and stops at the first error. *)
Definition traversal (c : M (list Mailbox * option error)) : Prop :=
  forall (m m' : machine) (ret_ : list Mailbox) (oerr : option error),
    c m = Done (ret_, oerr) m' ->
    sess m' = sess m /\
    exists trace : list call,
      calls m' = (calls m ++ trace)%list /\
      stops_at_first_error (config_Mailstore (config (sess m))) trace ret_ oerr.

(** The untagged status lines of SELECT, by the counter each one reports. *)
Definition line_exists (total : Z) : string := itoa total ++ " EXISTS".
Definition line_recent (recent : Z) : string := itoa recent ++ " RECENT".
Definition line_unseen (firstUnseen : Z) : string :=
  "OK [UNSEEN " ++ itoa firstUnseen ++ "] Message " ++ itoa firstUnseen
    ++ " is first unseen".
Definition line_uidvalidity (mailboxId : Z) : string :=
  "OK [UIDVALIDITY " ++ itoa mailboxId ++ "] UIDs valid".
Definition line_uidnext (nextUid : Z) : string :=
  "OK [UIDNEXT " ++ itoa nextUid ++ "] Predicted next UID".

(** The lines of the four counters occur in the order first-unseen, total
    messages, recent messages, next UID. *)
Definition lines_in_counter_order (firstUnseen total recent nextUid : Z)
    (lines : list string) : Prop :=
  exists i j k l : nat,
    position (line_unseen firstUnseen) lines = Some i /\
    position (line_exists total) lines = Some j /\
    position (line_recent recent) lines = Some k /\
    position (line_uidnext nextUid) lines = Some l /\
    (i < j)%nat /\ (j < k)%nat /\ (k < l)%nat.

(** [walk_fails ms path mboxRe err n]: a recursive walk from [path] with
    the filter [mboxRe] runs into a failing query, with error [err], at
    most [n] levels below [path]. Either the query at [path] fails; or it
    succeeds, the children listed before [child] that pass the filter have
    stored hierarchies (of depth at most [n]) below them, [child] passes
    the filter, and the unfiltered walk from the path of [child] fails. *)
Inductive walk_fails {RL : RegexpLib} (ms : Mailstore)
    : string -> option Regexp -> error -> nat -> Prop :=
| fails_at path mboxRe current err n :
    GetMailboxes ms path = (current, Some err) ->
    walk_fails ms path mboxRe err n
| fails_below path mboxRe before child others err n :
    GetMailboxes ms path
      = ((map root_of before ++ child :: others)%list, None) ->
    (forall t, In t before -> kept mboxRe (root_of t) = true ->
       stored ms (child_path path (Name (root_of t))) (children_of t)
       /\ (depth_forest (children_of t) <= n)%nat) ->
    kept mboxRe child = true ->
    walk_fails ms (child_path path (Name child)) None err n ->
    walk_fails ms path mboxRe err (S n).

(** The machine after the session logged [info]. *)
Definition after_log (m : machine) (info : string) : machine :=
  mkMachine (sess m) (calls m)
            (logged m ++ [("IMAP (" ++ itoa (id (sess m)) ++ ") ") ++ info]).

(* ===================================================================== *)
(** ** A fragment of Go's regular expressions                            *)
(* ===================================================================== *)

(** The expressions made of literal characters, [.] and the postfix [*],
    with the unanchored search of [MatchString]. [.] matches any character
    but the line feed. An expression that uses another operator is outside
    the fragment and is answered with an error; the instance is used at
    expressions of the fragment only. *)
Inductive atom : Type :=
| AnyChar
| Lit (c : ascii).

Definition piece : Type := (atom * bool)%type.

Definition atom_matches (a : atom) (c : ascii) : bool :=
  match a with
  | AnyChar => negb (Ascii.eqb c (ascii_of_nat 10))
  | Lit l => Ascii.eqb c l
  end.

Fixpoint match_here (re : list piece) : string -> bool :=
  match re with
  | [] => fun _ => true
  | (a, false) :: re' =>
      fun s => match s with
               | String c s' => atom_matches a c && match_here re' s'
               | EmptyString => false
               end
  | (a, true) :: re' =>
      fix star (s : string) : bool :=
        match_here re' s ||
        match s with
        | String c s' => atom_matches a c && star s'
        | EmptyString => false
        end
  end.

Fixpoint match_anywhere (re : list piece) (s : string) : bool :=
  match_here re s ||
  match s with
  | String _ s' => match_anywhere re s'
  | EmptyString => false
  end.

Definition is_operator (c : ascii) : bool :=
  existsb (Ascii.eqb c)
          ["\"; "+"; "?"; "("; ")"; "["; "]"; "{"; "}"; "^"; "$"; "|"]%char.

(** [acc] holds the pieces read so far, last first. *)
Fixpoint parse_pieces (s : string) (acc : list piece) : list piece + error :=
  match s with
  | EmptyString => inl (rev acc)
  | String c s' =>
      if Ascii.eqb c "*" then
        match acc with
        | [] => inr "error parsing regexp: missing argument to repetition operator: `*`"
        | (_, true) :: _ =>
            inr "error parsing regexp: invalid nested repetition operator: `**`"
        | (a, false) :: acc' => parse_pieces s' ((a, true) :: acc')
        end
      else if Ascii.eqb c "." then parse_pieces s' ((AnyChar, false) :: acc)
      else if is_operator c then inr "expression outside the modelled fragment"
      else parse_pieces s' ((Lit c, false) :: acc)
  end.

Definition GoRegexpFragment : RegexpLib := {|
  Regexp := list piece;
  regexp_Compile := fun expr => parse_pieces expr [];
  MatchString := match_anywhere
|}.

(* ===================================================================== *)
(** ** Example collaborators                                             *)
(* ===================================================================== *)

Definition exampleFlags : FlagVocabulary := {|
  mailboxFlags := [(1, "\Noselect"); (2, "\HasChildren");
                   (4, "\HasNoChildren"); (8, "\Marked")]
|}.

Definition mbInbox : Mailbox := mkMailbox "INBOX" "/INBOX" 5 4.
Definition mbWork : Mailbox := mkMailbox "Work" "/Work" 6 2.
Definition mbApple : Mailbox := mkMailbox "apple" "/apple" 7 4.
Definition mbReports : Mailbox := mkMailbox "reports" "/Work/reports" 8 2.
Definition mbDrafts : Mailbox := mkMailbox "drafts" "/Work/drafts" 9 4.
Definition mb2024 : Mailbox := mkMailbox "2024" "/Work/reports/2024" 10 4.

(** A store with three top-level mailboxes; [Work] has two children and
    [Work/reports] has one. [broken] names a path whose listing fails. *)
Definition exampleStore (broken : option string) : Mailstore := {|
  GetMailbox := fun name =>
    if String.eqb name "INBOX" then (Some mbInbox, None) else (None, None);
  GetMailboxes := fun path =>
    if match broken with
       | Some b => String.eqb path b
       | None => false
       end then ([], Some "disk failure")
    else if String.eqb path "/" then ([mbInbox; mbWork; mbApple], None)
    else if String.eqb path "/Work" then ([mbReports; mbDrafts], None)
    else if String.eqb path "/Work/reports" then ([mb2024], None)
    else ([], None);
  FirstUnseen := fun _ => (3, None);
  TotalMessages := fun _ => (7, None);
  RecentMessages := fun _ => (2, None);
  NextUid := fun _ => (9, None)
|}.

(** The same store, whose first counter fails. *)
Definition unreadableStore : Mailstore := {|
  GetMailbox := GetMailbox (exampleStore None);
  GetMailboxes := GetMailboxes (exampleStore None);
  FirstUnseen := fun _ => (0, Some "disk failure");
  TotalMessages := TotalMessages (exampleStore None);
  RecentMessages := RecentMessages (exampleStore None);
  NextUid := NextUid (exampleStore None)
|}.


(** A machine whose session is in state [s] over the store [ms]. *)
Definition machine_in (s : state) (ms : Mailstore) : machine :=
  mkMachine (mkSession 1 s None (mkConfig ms)) [] [].

(* ===================================================================== *)
(** ** Further vocabulary                                                *)
(* ===================================================================== *)

(** The string contains no path delimiter. *)
Fixpoint no_delimiter (s : string) : bool :=
  match s with
  | EmptyString => true
  | String c s' => negb (Ascii.eqb c pathDelimiter) && no_delimiter s'
  end.

(** [p] is [path] followed by some more characters. *)
Definition extends (path p : string) : Prop :=
  exists suffix : string, p = path ++ suffix.

(** The command is a SELECT. *)
Definition is_select (c : command) : bool :=
  match c with
  | selectMailbox _ _ => true
  | _ => false
  end.

(** The command is a LOGOUT. *)
Definition is_logout (c : command) : bool :=
  match c with
  | logout _ => true
  | _ => false
  end.

(** The untagged lines LIST writes for the mailboxes found, one each. *)
Definition list_lines {FV : FlagVocabulary} (mboxes : list Mailbox)
    : list string :=
  map (fun mbox => list_line (joinMailboxFlags mbox) (Path mbox)) mboxes.

(** The wire tokens of the flags of a mailbox: those of the table entries
    whose bits meet the mailbox's flag bits. *)
Definition flag_tokens {FV : FlagVocabulary} (m : Mailbox) : list string :=
  map snd (filter (fun entry => negb (Z.land (Flags m) (fst entry) =? 0))
                  mailboxFlags).

(** [lines] are LIST lines for [mboxes]: one line per mailbox, in order,
    each made of the flag tokens of its mailbox, joined by commas in some
    order, and of the path of its mailbox. *)
Definition lines_for {FV : FlagVocabulary} (lines : list string)
    (mboxes : list Mailbox) : Prop :=
  Forall2 (fun line mbox =>
             exists tokens : list string,
               Permutation tokens (flag_tokens mbox)
               /\ line = list_line (strings_Join tokens ",") (Path mbox))
          lines mboxes.

(** The queries and log lines of a directory walk over [paths]. *)
Definition walk_calls (paths : list string) : list call :=
  map CallGetMailboxes paths.

Definition walk_log (paths : list string) : list string :=
  map (fun p => "listMailboxes " ++ p) paths.

(** What a directory walk from [path] did. It left the session alone; it
    queried [path] and then the paths [rest], each of them below [path],
    and logged each query. When it returned mailboxes without error, each
    of them is in the answer to one of these queries, and a recursive walk
    made one further query for each mailbox returned. *)
Definition walk_report (path : string) (recursive : bool) (m m' : machine)
    (ret_ : list Mailbox) (oerr : option error) : Prop :=
  sess m' = sess m /\
  exists rest : list string,
    calls m' = (calls m ++ walk_calls (path :: rest))%list /\
    logged m' = (logged m ++ walk_log (path :: rest))%list /\
    Forall (extends path) rest /\
    (oerr = None ->
     List.length rest = (if recursive then List.length ret_ else O) /\
     Forall (fun mb =>
               exists p, In p (path :: rest) /\
                         In mb (fst (GetMailboxes
                                       (config_Mailstore (config (sess m)))
                                       p)))
            ret_).

(** A machine whose session is Authenticated over [ms] with [mbox]
    selected. *)
Definition machine_selected (ms : Mailstore) (mbox : Mailbox) : machine :=
  mkMachine (mkSession 1 authenticated (Some mbox) (mkConfig ms)) [] [].

(* ===================================================================== *)
(** ** session.go, the version with paths as segment lists               *)
(* ===================================================================== *)

(** The second version of [session.list] and [session.listMailboxes], in
    which the reference, the pattern and every path are slices of
    segments. A slice is a [list string]; [append] builds the longer list.
    The walk reads the Mailstore of the session's configuration and
    neither reads nor writes another field of the session, so the machine
    holds that Mailstore, the queries made and the log. *)
Module Segments.

(** Modelled from the spec: the Mailstore this version consumes takes the
    path of a query as a list of segments. *)
Record Mailstore : Type := mkMailstore {
  GetMailboxes : list string -> list Mailbox * option error
}.

Record machine : Type := mkMachine {
  store : Mailstore;
  calls : list (list string);   (* the paths queried, oldest first *)
  logged : list string          (* oldest first, without the time stamp *)
}.

Inductive outcome (A : Type) : Type :=
| Done (a : A) (m : machine)
| Panicked
| OutOfFuel.
Arguments Done {A} a m.
Arguments Panicked {A}.
Arguments OutOfFuel {A}.

Definition M (A : Type) : Type := machine -> outcome A.

Definition ret {A : Type} (a : A) : M A := fun m => Done a m.

Definition bind {A B : Type} (c : M A) (k : A -> M B) : M B :=
  fun m => match c m with
           | Done a m' => k a m'
           | Panicked => Panicked
           | OutOfFuel => OutOfFuel
           end.

Definition lift {A : Type} (r : result A) : M A :=
  fun m => match r with
           | Val a => Done a m
           | Panic => Panicked
           end.

Declare Scope seg_scope.
Delimit Scope seg_scope with seg.
Notation "x <- e ;; k" := (bind e (fun x => k))
  (at level 61, e at next level, right associativity) : seg_scope.
Notation "e ;;; k" := (bind e (fun _ => k))
  (at level 61, right associativity) : seg_scope.

(** [len(l)] of a slice. *)
Definition len_slice (l : list string) : Z := Z.of_nat (List.length l).

(** [l[i]]: panics unless [0 <= i < len(l)]. *)
Definition at_index (l : list string) (i : Z) : result string :=
  if (i <? 0) || (len_slice l <=? i) then Panic
  else match nth_error l (Z.to_nat i) with
       | Some x => Val x
       | None => Panic
       end.

(** [l[lo:hi]]: panics unless [0 <= lo <= hi <= len(l)]. *)
Definition sub_slice (l : list string) (lo hi : Z) : result (list string) :=
  if (lo <? 0) || (hi <? lo) || (len_slice l <? hi) then Panic
  else Val (firstn (Z.to_nat (hi - lo)) (skipn (Z.to_nat lo) l)).

(** What [log.Print] writes for a slice of strings: the elements between
    brackets, separated by spaces. *)
Definition Sprint_slice (l : list string) : string :=
  "[" ++ String.concat " " l ++ "]".

Definition log_Print (text : string) : M unit :=
  fun m => Done tt (mkMachine (store m) (calls m) (logged m ++ [text])).

(** [mailstore.GetMailboxes(path)] *)
Definition query (path : list string) : M (list Mailbox * option error) :=
  fun m => Done (GetMailboxes (store m) path)
                (mkMachine (store m) (calls m ++ [path]) (logged m)).

Section Resolver.

Context {RL : RegexpLib}.

Local Open Scope seg_scope.

(** The [for] loop of [session.listMailboxes]. *)
Fixpoint listMailboxes_loop
    (self : list string -> M (list Mailbox * option error))
    (path : list string) (mboxRe : option Regexp) (recursive : bool)
    (current : list Mailbox) (ret_ : list Mailbox)
    : M (list Mailbox * option error) :=
  match current with
  | [] => ret (ret_, None)
  | mbox :: rest =>
      (* Is there a pattern to match? *)
      if match mboxRe with
         | Some re => negb (MatchString re (Name mbox))
         | None => false
         end
      then listMailboxes_loop self path mboxRe recursive rest ret_
      else
        (* Add the mailbox to the results *)
        let ret_ := (ret_ ++ [mbox])%list in
        (* Is this a recursive listing? *)
        if recursive then
          (* Build the path to the child mailbox *)
          let nextPath := (path ++ [Name mbox])%list in
          r <- self nextPath ;;
          match r with
          | (_, Some err) => ret ([], Some err)
          | (next, None) =>
              listMailboxes_loop self path mboxRe recursive rest
                                 (ret_ ++ next)%list
          end
        else listMailboxes_loop self path mboxRe recursive rest ret_
  end.

(** [session.listMailboxes]. Each level of the recursion consumes one unit
    of fuel. *)
Fixpoint listMailboxes (fuel : nat) (path : list string)
    (mboxRe : option Regexp) (recursive : bool)
    : M (list Mailbox * option error) :=
  match fuel with
  | O => fun _ => OutOfFuel
  | S fuel' =>
      log_Print ("listMailboxes " ++ Sprint_slice path) ;;;
      r <- query path ;;
      match r with
      | (_, Some err) => ret ([], Some err)
      | (current, None) =>
          listMailboxes_loop (fun p => listMailboxes fuel' p None true)
                             path mboxRe recursive current []
      end
  end.

(** [session.list] *)
Definition session_list (fuel : nat) (reference mbox : list string)
    : M (list Mailbox * option error) :=
  if len_slice mbox =? 0 then
    (* Lookup mailboxes at the reference point *)
    listMailboxes fuel reference None false
  else
    (* Will this be a recursive listing? *)
    let mboxLastIndex := len_slice mbox - 1 in
    mboxPattern <- lift (at_index mbox mboxLastIndex) ;;
    let patLastIndex := len mboxPattern - 1 in
    c <- lift (index_at mboxPattern patLastIndex) ;;
    let recursive := Ascii.eqb c "*" in
    let path := reference in
    (* Does the mailbox end in a wildcard? *)
    c <- lift (index_at mboxPattern patLastIndex) ;;
    if Ascii.eqb c "*" || Ascii.eqb c "%" then
      (* Build the mailbox path *)
      path <- (if 0 <? mboxLastIndex
               then front <- lift (sub_slice mbox 0 mboxLastIndex) ;;
                    ret (path ++ front)%list
               else ret path) ;;
      (* Convert the wildcard into a regular expression *)
      expr <- (if len mboxPattern =? 1 then ret ".*"
               else
                 pre <- lift (slice mboxPattern 0 (patLastIndex - 1)) ;;
                 ret (pre ++ ".*")) ;;
      match regexp_Compile expr with
      | inr err => ret ([], Some err)
      | inl mboxRe => listMailboxes fuel path (Some mboxRe) recursive
      end
    else
      (* Build the mailbox path *)
      let path := (path ++ [mboxPattern])%list in
      listMailboxes fuel path None recursive.

End Resolver.

(** The machine after [listMailboxes] logged [path] and queried it. *)
Definition after_query (m : machine) (path : list string) : machine :=
  mkMachine (store m) (calls m ++ [path])
            (logged m ++ ["listMailboxes " ++ Sprint_slice path]).

(** A store by segments with the mailboxes of the example store. *)
Definition exampleStore : Mailstore := {|
  GetMailboxes := fun path =>
    match path with
    | [] => ([mbInbox; mbWork; mbApple], None)
    | ["Work"] => ([mbReports; mbDrafts], None)
    | ["Work"; "reports"] => ([mb2024], None)
    | _ => ([], None)
    end
|}.

Definition exampleMachine : machine := mkMachine exampleStore [] [].

End Segments.

(* ===================================================================== *)
(** ** Strings: indexing and slicing                                     *)
(* ===================================================================== *)

Lemma len_nonneg (s : string) : 0 <= len s.
Proof. unfold len. lia. Qed.

Lemma len_String (c : ascii) (s : string) : len (String c s) = 1 + len s.
Proof. unfold len. simpl String.length. lia. Qed.

Lemma len_append (a b : string) : len (a ++ b) = len a + len b.
Proof.
  induction a as [|c a IH].
  - unfold len. simpl. lia.
  - change (String c a ++ b) with (String c (a ++ b)).
    rewrite !len_String, IH. lia.
Qed.

Lemma append_empty_r (s : string) : s ++ EmptyString = s.
Proof. induction s as [|c s IH]; simpl; [reflexivity|]. rewrite IH. reflexivity. Qed.

Lemma get_last (s : string) (c : ascii) :
  String.get (String.length s) (String c s) = last_char (String c s).
Proof.
  revert c. induction s as [|d s IH]; intros c; [reflexivity|].
  change (String.get (String.length s) (String d s)
          = last_char (String d s)).
  apply IH.
Qed.

Lemma last_char_nonempty (s : string) :
  s <> EmptyString -> exists c, last_char s = Some c.
Proof.
  induction s as [|d s IH]; [congruence|]. intros _.
  destruct s as [|e s]; [now exists d|].
  destruct IH as [c Hc]; [discriminate|]. exists c. exact Hc.
Qed.

(** [s[len(s)-1]] is the last character, and panics on the empty string. *)
Lemma index_at_last (s : string) :
  index_at s (len s - 1) =
  match last_char s with
  | Some c => Val c
  | None => Panic
  end.
Proof.
  unfold index_at. destruct s as [|c s].
  - reflexivity.
  - assert (Hl := len_nonneg s). rewrite len_String in *.
    replace (1 + len s - 1 <? 0) with false by (symmetry; apply Z.ltb_ge; lia).
    replace (1 + len s <=? 1 + len s - 1) with false
      by (symmetry; apply Z.leb_gt; lia).
    simpl orb. cbv iota.
    replace (Z.to_nat (1 + len s - 1)) with (String.length s)
      by (unfold len; lia).
    rewrite get_last. destruct (last_char (String c s)) eqn:E; [reflexivity|].
    destruct (last_char_nonempty (String c s)) as [d Hd]; congruence.
Qed.

Lemma last_char_append (s : string) (c : ascii) :
  last_char (s ++ String c EmptyString) = Some c.
Proof.
  induction s as [|d s IH]; [reflexivity|].
  simpl. rewrite IH. destruct (s ++ String c EmptyString) eqn:E; [|reflexivity].
  destruct s; discriminate.
Qed.

Lemma slice_ok (s : string) (lo hi : Z) :
  0 <= lo -> lo <= hi -> hi <= len s ->
  slice s lo hi = Val (String.substring (Z.to_nat lo) (Z.to_nat (hi - lo)) s).
Proof.
  intros H1 H2 H3. unfold slice.
  replace (lo <? 0) with false by (symmetry; apply Z.ltb_ge; lia).
  replace (hi <? lo) with false by (symmetry; apply Z.ltb_ge; lia).
  replace (len s <? hi) with false by (symmetry; apply Z.ltb_ge; lia).
  reflexivity.
Qed.

(** [addTrailingDelimiter] by cases on the last character. *)
Lemma addTrailingDelimiter_cases (s : string) :
  addTrailingDelimiter s =
  match last_char s with
  | None => Panic
  | Some c => if Ascii.eqb c pathDelimiter
              then Val s
              else Val (s ++ pathDelimiterString)
  end.
Proof.
  unfold addTrailingDelimiter. rewrite index_at_last.
  destruct (last_char s) as [c|]; simpl; [|reflexivity].
  destruct (Ascii.eqb c pathDelimiter); reflexivity.
Qed.

(* ===================================================================== *)
(** ** Delimiter normalization                                           *)
(* ===================================================================== *)

(** C9. On the empty string [addTrailingDelimiter] returns no string: it
    indexes the string at [-1] and panics, so that applying it twice and
    applying it once yield no string to compare. On every string with at
    least one character it returns a string, and applied to that string it
    returns the same string again. *)
Theorem addTrailingDelimiter_idempotent_but_on_empty :
  addTrailingDelimiter EmptyString = Panic
  /\ rbind (addTrailingDelimiter EmptyString) addTrailingDelimiter = Panic
  /\ forall (c : ascii) (s : string),
       exists r : string,
         addTrailingDelimiter (String c s) = Val r
         /\ addTrailingDelimiter r = Val r
         /\ rbind (addTrailingDelimiter (String c s)) addTrailingDelimiter
            = addTrailingDelimiter (String c s).
Proof.
  assert (step : forall s r, addTrailingDelimiter s = Val r ->
                             addTrailingDelimiter r = Val r).
  { intros s r. rewrite !addTrailingDelimiter_cases.
    destruct (last_char s) as [c|] eqn:E; [|discriminate].
    destruct (Ascii.eqb c pathDelimiter) eqn:Ec; intros [= <-].
    - rewrite E, Ec. reflexivity.
    - unfold pathDelimiterString. rewrite last_char_append.
      rewrite Ascii.eqb_refl. reflexivity. }
  split; [reflexivity|]. split; [reflexivity|]. intros c s.
  destruct (addTrailingDelimiter (String c s)) as [r|] eqn:E.
  - exists r. assert (Hr := step _ _ E).
    split; [reflexivity|]. split; [exact Hr|]. cbn [rbind]. exact Hr.
  - rewrite addTrailingDelimiter_cases in E.
    destruct (last_char_nonempty (String c s)) as [d Hd]; [discriminate|].
    rewrite Hd in E. destruct (Ascii.eqb d pathDelimiter); discriminate.
Qed.

(* ===================================================================== *)
(** ** The session state machine                                         *)
(* ===================================================================== *)

Lemma state_eqb_eq (a b : state) : state_eqb a b = true <-> a = b.
Proof. destruct a, b; simpl; split; congruence. Qed.

Lemma state_eqb_neq (a b : state) : state_eqb a b = false <-> a <> b.
Proof. destruct a, b; simpl; split; congruence. Qed.

Lemma String_neq_tail (c : ascii) (s : string) : String c s <> s.
Proof.
  intros H. apply (f_equal String.length) in H. simpl in H.
  exact (Nat.neq_succ_diag_l _ H).
Qed.

(** Unfolds the monadic operations that touch the machine. *)
Ltac run_machine :=
  unfold mustAuthenticate, internalError, session_log, session_selectMailbox,
    mailbox_Id, bind, ret, lift, get_sess, put_sess, log_Print,
    mailstore_call, after_log;
  cbn [sess calls logged id st mailbox config set_st set_mailbox].

(** C2, as amended. In the NotAuthenticated state LOGIN succeeds (the state
    becomes Authenticated, the answer is OK) exactly when the user id is
    "test", whatever the password, and answers NO with the session
    unchanged for every other user id; in any other state it answers BAD
    and leaves the session unchanged. *)
Theorem login_execute_cases :
  forall (t userId password : string) (m : machine),
    (st (sess m) = notAuthenticated -> userId = "test" ->
       login_execute t userId password m =
       Done (ok t "LOGIN completed")
            (mkMachine (set_st (sess m) authenticated) (calls m) (logged m)))
    /\ (st (sess m) = notAuthenticated -> userId <> "test" ->
          login_execute t userId password m = Done (no t "LOGIN failure") m)
    /\ (st (sess m) <> notAuthenticated ->
          login_execute t userId password m =
          Done (bad t "LOGIN already logged in")
               (after_log m "LOGIN already logged in")).
Proof.
  intros t userId password m. unfold login_execute. repeat split.
  - intros Hst ->. run_machine. rewrite Hst. reflexivity.
  - intros Hst Hu. run_machine. rewrite Hst. simpl.
    apply String.eqb_neq in Hu. rewrite Hu. reflexivity.
  - intros Hst. run_machine. apply state_eqb_neq in Hst. rewrite Hst.
    reflexivity.
Qed.

(** C3. LIST with an empty pattern in the Authenticated state answers OK
    with one untagged line and leaves the machine as it was: no Mailstore
    call, nothing logged. The line ends in the reference; where the
    delimiter is meant to stand it carries the bad-verb rendering of the
    rune 47. *)
Theorem list_empty_pattern :
  forall (RL : RegexpLib) (FV : FlagVocabulary) (fuel : nat)
         (t reference : string) (m : machine),
    st (sess m) = authenticated ->
    list_execute fuel t reference EmptyString m =
    Done (mkResponse t OK "LIST completed"
            ["LIST () " ++ dquote ++ "%!s(int32=47)" ++ dquote ++ " "
               ++ reference] false) m.
Proof.
  intros RL FV fuel t reference m Hst. unfold list_execute. run_machine.
  rewrite Hst. reflexivity.
Qed.

(** C4. LIST with an empty reference and a non-empty pattern in the
    Authenticated state does not complete: [addTrailingDelimiter] indexes
    the empty reference at [-1] and panics before any Mailstore call. *)
Theorem list_empty_reference_panics :
  forall (RL : RegexpLib) (FV : FlagVocabulary) (fuel : nat)
         (t mboxPattern : string) (m : machine),
    st (sess m) = authenticated ->
    mboxPattern <> EmptyString ->
    addTrailingDelimiter EmptyString = Panic
    /\ list_execute fuel t EmptyString mboxPattern m = Panicked.
Proof.
  intros RL FV fuel t mboxPattern m Hst Hp. split; [reflexivity|].
  unfold list_execute. run_machine. rewrite Hst. simpl.
  apply String.eqb_neq in Hp. rewrite Hp. reflexivity.
Qed.

(** C1, as amended. SELECT answers BAD when the state is not Authenticated.
    In the Authenticated state it answers NO when the Mailstore reports the
    mailbox absent; when the mailbox exists and the four counters are read
    without error (first-unseen, total messages, recent messages, next UID,
    queried in that order) it records the mailbox and answers OK with
    exactly five untagged lines, in the order EXISTS (total messages),
    RECENT (recent messages), UNSEEN (first-unseen), UIDVALIDITY (the
    mailbox id), UIDNEXT (next UID); when the lookup fails, or one of the
    counters fails, it answers NO with the error text and the close flag. *)
Theorem selectMailbox_execute_cases :
  forall (t name : string) (m : machine),
    let ms := config_Mailstore (config (sess m)) in
    (st (sess m) <> authenticated ->
       selectMailbox_execute t name m =
       Done (bad t "SELECT not authenticated")
            (after_log m "SELECT not authenticated"))
    /\ (st (sess m) = authenticated ->
        GetMailbox ms name = (None, None) ->
          selectMailbox_execute t name m =
          Done (no t "SELECT No such mailbox")
               (mkMachine (sess m) (calls m ++ [CallGetMailbox name])
                          (logged m)))
    /\ (forall (mbox : Mailbox) (firstUnseen total recent nextUid : Z),
          st (sess m) = authenticated ->
          GetMailbox ms name = (Some mbox, None) ->
          FirstUnseen ms (Id mbox) = (firstUnseen, None) ->
          TotalMessages ms (Id mbox) = (total, None) ->
          RecentMessages ms (Id mbox) = (recent, None) ->
          NextUid ms (Id mbox) = (nextUid, None) ->
          selectMailbox_execute t name m =
          Done (mkResponse t OK "SELECT completed"
                  [line_exists total; line_recent recent;
                   line_unseen firstUnseen; line_uidvalidity (Id mbox);
                   line_uidnext nextUid] false)
               (mkMachine (set_mailbox (sess m) (Some mbox))
                          (calls m ++
                             [CallGetMailbox name; CallFirstUnseen (Id mbox);
                              CallTotalMessages (Id mbox);
                              CallRecentMessages (Id mbox);
                              CallNextUid (Id mbox)])
                          (logged m)))
    /\ (forall (found : option Mailbox) (err : error),
          st (sess m) = authenticated ->
          GetMailbox ms name = (found, Some err) ->
          selectMailbox_execute t name m =
          Done (shouldClose (no t ("SELECT " ++ err)))
               (after_log (mkMachine (sess m) (calls m ++ [CallGetMailbox name])
                                     (logged m))
                          ("SELECT " ++ err)))
    /\ (forall (mbox : Mailbox),
          st (sess m) = authenticated ->
          GetMailbox ms name = (Some mbox, None) ->
          snd (FirstUnseen ms (Id mbox)) <> None
          \/ snd (TotalMessages ms (Id mbox)) <> None
          \/ snd (RecentMessages ms (Id mbox)) <> None
          \/ snd (NextUid ms (Id mbox)) <> None ->
          exists (err : error) (m' : machine),
            selectMailbox_execute t name m =
            Done (shouldClose (no t ("SELECT " ++ err))) m'
            /\ sess m' = set_mailbox (sess m) (Some mbox)
            /\ In (Some err)
                  [snd (FirstUnseen ms (Id mbox));
                   snd (TotalMessages ms (Id mbox));
                   snd (RecentMessages ms (Id mbox));
                   snd (NextUid ms (Id mbox))]).
Proof.
  intros t name m ms. unfold selectMailbox_execute. subst ms.
  split; [|split; [|split; [|split]]].
  - intros Hst. run_machine. apply state_eqb_neq in Hst. rewrite Hst.
    reflexivity.
  - intros Hst Hget. run_machine. rewrite Hst. cbn. rewrite Hget. reflexivity.
  - intros mbox firstUnseen total recent nextUid Hst Hget H1 H2 H3 H4.
    unfold addMailboxInfo. run_machine. rewrite Hst. cbn. rewrite Hget. cbn.
    rewrite H1. cbn. rewrite H2. cbn. rewrite H3. cbn. rewrite H4. cbn.
    rewrite <- !app_assoc. reflexivity.
  - intros found err Hst Hget. run_machine. rewrite Hst. cbn. rewrite Hget.
    destruct found; reflexivity.
  - intros mbox Hst Hget Hfail. unfold addMailboxInfo. run_machine.
    rewrite Hst. cbn. rewrite Hget. cbn.
    destruct (FirstUnseen (config_Mailstore (config (sess m))) (Id mbox))
      as [n1 [e1|]]; cbn;
      [eexists _, _; repeat split; left; reflexivity|].
    destruct (TotalMessages (config_Mailstore (config (sess m))) (Id mbox))
      as [n2 [e2|]]; cbn;
      [eexists _, _; repeat split; right; left; reflexivity|].
    destruct (RecentMessages (config_Mailstore (config (sess m))) (Id mbox))
      as [n3 [e3|]]; cbn;
      [eexists _, _; repeat split; do 2 right; left; reflexivity|].
    destruct (NextUid (config_Mailstore (config (sess m))) (Id mbox))
      as [n4 [e4|]]; cbn;
      [eexists _, _; repeat split; do 3 right; left; reflexivity|].
    cbn in Hfail. exfalso. intuition congruence.
Qed.

(* ===================================================================== *)
(** ** The resolver: where it looks                                      *)
(* ===================================================================== *)

Lemma lastIndexFrom_delimiter (s : string) :
  forall i acc : Z,
    let r := lastIndexFrom s pathDelimiterString i acc in
    r = acc \/
    (i <= r < i + len s /\
     String.get (Z.to_nat (r - i)) s = Some pathDelimiter).
Proof.
  induction s as [|d s IH]; intros i acc; [left; reflexivity|].
  cbn zeta. cbn [lastIndexFrom].
  assert (Hl := len_nonneg s). rewrite len_String.
  set (acc' := if String.prefix pathDelimiterString (String d s)
               then i else acc).
  destruct (IH (i + 1) acc') as [E | [Hr Hg]].
  - rewrite E. subst acc'. unfold pathDelimiterString. cbn [String.prefix].
    destruct (ascii_dec pathDelimiter d) as [<- | _].
    + destruct s; cbn [String.prefix]; right; (split; [lia|]);
        rewrite Z.sub_diag; reflexivity.
    + left; reflexivity.
  - right. split; [lia|].
    replace (Z.to_nat (lastIndexFrom s pathDelimiterString (i + 1) acc' - i))
      with (S (Z.to_nat (lastIndexFrom s pathDelimiterString (i + 1) acc'
                         - (i + 1)))) by lia.
    exact Hg.
Qed.

(** The last delimiter of a pattern that does not end in one lies before
    the last character. *)
Lemma strings_LastIndex_bounds (s : string) (c : ascii) :
  last_char s = Some c -> c <> pathDelimiter ->
  -1 <= strings_LastIndex s pathDelimiterString <= len s - 2.
Proof.
  intros Hc Hne. unfold strings_LastIndex.
  assert (Hl := len_nonneg s).
  destruct s as [|d s]; [discriminate|].
  assert (Hl' := len_nonneg s).
  destruct (lastIndexFrom_delimiter (String d s) 0 (-1)) as [E | [Hr Hg]].
  - rewrite E. rewrite len_String. lia.
  - rewrite len_String in *. split; [lia|].
    destruct (Z.eq_dec (lastIndexFrom (String d s) pathDelimiterString 0 (-1))
                       (len s)) as [E | E]; [|lia].
    rewrite E, Z.sub_0_r in Hg. unfold len in Hg. rewrite Nat2Z.id in Hg.
    rewrite get_last, Hc in Hg. congruence.
Qed.

Lemma last_char_len (s : string) (c : ascii) :
  last_char s = Some c -> 1 <= len s.
Proof.
  destruct s; [discriminate|]. intros _. rewrite len_String.
  assert (Hl := len_nonneg s). lia.
Qed.

Section ResolverFacts.

Context {RL : RegexpLib}.

(** A pattern that does not end in a wildcard: the resolver looks at the
    path reference+pattern, without filter or recursion. *)
Lemma session_list_literal (fuel : nat) (reference mboxPattern : string)
    (c : ascii) (m : machine) :
  last_char mboxPattern = Some c ->
  Ascii.eqb c "*" = false -> Ascii.eqb c "%" = false ->
  session_list fuel reference mboxPattern m =
  listMailboxes fuel (reference ++ mboxPattern) None false m.
Proof.
  intros Hc H1 H2. unfold session_list, bind, lift.
  rewrite index_at_last, Hc, H1, H2. reflexivity.
Qed.

(** A pattern that ends in a wildcard: the resolver either fails to compile
    its filter expression, or looks at the reference extended by a part of
    the pattern, with the compiled filter, and recursively exactly when the
    wildcard is [*]. *)
Lemma session_list_wildcard (reference mboxPattern : string) (c : ascii) :
  last_char mboxPattern = Some c ->
  Ascii.eqb c "*" || Ascii.eqb c "%" = true ->
  exists part expr : string,
    forall (fuel : nat) (m : machine),
      session_list fuel reference mboxPattern m =
      match regexp_Compile expr with
      | inr err => Done ([], Some err) m
      | inl mboxRe =>
          listMailboxes fuel (reference ++ part) (Some mboxRe)
                        (Ascii.eqb c "*") m
      end.
Proof.
  intros Hc Hw.
  assert (Hne : c <> pathDelimiter).
  { intros ->. discriminate Hw. }
  assert (Hb := strings_LastIndex_bounds _ _ Hc Hne).
  assert (Hl := last_char_len _ _ Hc).
  set (ld := strings_LastIndex mboxPattern pathDelimiterString) in *.
  assert (shape : forall part expr,
    (if 0 <? ld then lift (slice mboxPattern 0 ld) else ret EmptyString)
      = ret part ->
    (if len mboxPattern =? 1 then ret ".*"
     else if 0 <? ld
          then bind (lift (slice mboxPattern ld (len mboxPattern - 1 - 1)))
                    (fun pre => ret (pre ++ ".*"))
          else bind (lift (slice mboxPattern 0 (len mboxPattern - 1 - 1)))
                    (fun pre => ret (pre ++ ".*")))
      = ret expr ->
    forall fuel m,
      session_list fuel reference mboxPattern m =
      match regexp_Compile expr with
      | inr err => Done ([], Some err) m
      | inl mboxRe =>
          listMailboxes fuel (reference ++ part) (Some mboxRe)
                        (Ascii.eqb c "*") m
      end).
  { intros part expr Hp He fuel m. unfold session_list.
    fold ld. unfold bind at 1 2. unfold lift at 1 2.
    rewrite index_at_last, Hc, Hw. rewrite Hp. unfold bind at 1.
    cbn [ret]. rewrite He. unfold bind, ret.
    destruct (regexp_Compile expr); reflexivity. }
  destruct (0 <? ld) eqn:Eld.
  - apply Z.ltb_lt in Eld.
    rewrite (slice_ok mboxPattern 0 ld) in shape by lia.
    destruct (len mboxPattern =? 1) eqn:E1.
    + eexists _, _. apply shape; reflexivity.
    + rewrite (slice_ok mboxPattern ld (len mboxPattern - 1 - 1)) in shape
        by lia.
      eexists _, _. apply shape; reflexivity.
  - destruct (len mboxPattern =? 1) eqn:E1.
    + eexists _, _. apply shape; reflexivity.
    + apply Z.eqb_neq in E1.
      rewrite (slice_ok mboxPattern 0 (len mboxPattern - 1 - 1)) in shape
        by lia.
      eexists _, _. apply shape; reflexivity.
Qed.

(** Without recursion the loop keeps the children that pass the filter. *)
Lemma listMailboxes_loop_flat
    (self : string -> M (list Mailbox * option error)) (path : string)
    (mboxRe : option Regexp) (current : list Mailbox) :
  forall (ret_ : list Mailbox) (m : machine),
    listMailboxes_loop self path mboxRe false current ret_ m =
    Done ((ret_ ++ filter (kept mboxRe) current)%list, None) m.
Proof.
  induction current as [|mbox rest IH]; intros ret_ m; simpl.
  - rewrite app_nil_r. reflexivity.
  - unfold kept at 1. destruct mboxRe as [re|].
    + destruct (MatchString re (Name mbox)); simpl.
      * rewrite IH, <- app_assoc. reflexivity.
      * apply IH.
    + rewrite IH, <- app_assoc. reflexivity.
Qed.

(** A listing without recursion is one query, filtered. *)
Lemma listMailboxes_flat (fuel : nat) (path : string)
    (mboxRe : option Regexp) (m : machine) :
  listMailboxes (S fuel) path mboxRe false m =
  match GetMailboxes (config_Mailstore (config (sess m))) path with
  | (_, Some err) => Done ([], Some err) (after_query m path)
  | (current, None) =>
      Done (filter (kept mboxRe) current, None) (after_query m path)
  end.
Proof.
  cbn [listMailboxes]. unfold bind, log_Print, mailstore_call, after_query.
  cbn [sess calls logged].
  destruct (GetMailboxes (config_Mailstore (config (sess m))) path)
    as [current [err|]]; [reflexivity|].
  rewrite listMailboxes_loop_flat. reflexivity.
Qed.

End ResolverFacts.

(* ===================================================================== *)
(** ** The resolver: storage errors                                      *)
(* ===================================================================== *)

Section TraversalFacts.

Context {RL : RegexpLib}.

Lemma stops_at_first_error_app (ms : Mailstore) (t1 t2 : list call)
    (ret_ : list Mailbox) (oerr : option error) :
  Forall (fun c => call_error ms c = None) t1 ->
  stops_at_first_error ms t2 ret_ oerr ->
  stops_at_first_error ms (t1 ++ t2) ret_ oerr.
Proof.
  intros H1 H2. destruct oerr as [err|]; simpl in *.
  - destruct H2 as [-> [before [p [-> [Hp Hb]]]]]. split; [reflexivity|].
    exists (t1 ++ before)%list, p. rewrite app_assoc.
    split; [reflexivity|]. split; [exact Hp|].
    apply Forall_app. split; assumption.
  - apply Forall_app. split; assumption.
Qed.

Lemma listMailboxes_loop_traversal
    (self : string -> M (list Mailbox * option error)) (path : string)
    (mboxRe : option Regexp) (recursive : bool) :
  (forall p, traversal (self p)) ->
  forall (current ret_ : list Mailbox),
    traversal (listMailboxes_loop self path mboxRe recursive current ret_).
Proof.
  intros Hself. induction current as [|mbox rest IH];
    intros ret_ m m' r oerr H; cbn [listMailboxes_loop] in H.
  - unfold ret in H. injection H as <- <- <-. split; [reflexivity|].
    exists []. rewrite app_nil_r. split; [reflexivity|]. constructor.
  - destruct (match mboxRe with
              | Some re => negb (MatchString re (Name mbox))
              | None => false
              end); [exact (IH _ _ _ _ _ H)|].
    destruct recursive; [|exact (IH _ _ _ _ _ H)].
    unfold bind at 1 in H. unfold lift in H.
    destruct (index_at path (len path - 1)) as [c|]; [|discriminate].
    unfold bind in H.
    match type of H with
    | match self ?p m with _ => _ end = _ =>
        destruct (self p m) as [[next [err|]] m1| |] eqn:Es;
          try discriminate; apply Hself in Es
    end.
    + unfold ret in H. injection H as <- <- <-.
      destruct Es as [Hs [trace [Hc Hstop]]]. split; [exact Hs|].
      exists trace. split; [exact Hc|].
      simpl in *. destruct Hstop as [_ Hstop]. split; [reflexivity|exact Hstop].
    + destruct Es as [Hs [t1 [Hc1 Hok]]]. simpl in Hok.
      destruct (IH _ _ _ _ _ H) as [Hs' [t2 [Hc2 Hstop]]].
      split; [congruence|]. exists (t1 ++ t2)%list.
      split; [rewrite Hc2, Hc1, app_assoc; reflexivity|].
      rewrite Hs in Hstop. apply stops_at_first_error_app; assumption.
Qed.

(** The directory walk leaves the session alone and stops at the first
    failing query. *)
Lemma listMailboxes_traversal (fuel : nat) :
  forall (path : string) (mboxRe : option Regexp) (recursive : bool),
    traversal (listMailboxes fuel path mboxRe recursive).
Proof.
  induction fuel as [|fuel IH]; intros path mboxRe recursive m m' r oerr H;
    cbn [listMailboxes] in H; [discriminate|].
  unfold bind, log_Print, mailstore_call in H. cbn [sess calls logged] in H.
  destruct (GetMailboxes (config_Mailstore (config (sess m))) path)
    as [current [err|]] eqn:Eq.
  - unfold ret in H. injection H as <- <- <-. split; [reflexivity|].
    exists [CallGetMailboxes path]. split; [reflexivity|].
    simpl. split; [reflexivity|]. exists [], path.
    rewrite Eq. repeat split. constructor.
  - apply (listMailboxes_loop_traversal _ _ _ _ (fun p => IH p None true))
      in H.
    cbn [sess calls] in H. destruct H as [Hs [trace [Hc Hstop]]].
    split; [exact Hs|]. exists (CallGetMailboxes path :: trace).
    split; [rewrite Hc, <- app_assoc; reflexivity|].
    apply (stops_at_first_error_app _ [CallGetMailboxes path]);
      [|exact Hstop].
    constructor; [|constructor]. simpl. rewrite Eq. reflexivity.
Qed.

(** [session.list] is such a traversal, unless the filter expression does
    not compile, in which case no query is made. *)
Lemma session_list_traversal (fuel : nat) (reference mboxPattern : string)
    (m m' : machine) (ret_ : list Mailbox) (oerr : option error) :
  session_list fuel reference mboxPattern m = Done (ret_, oerr) m' ->
  sess m' = sess m /\
  exists trace : list call,
    calls m' = (calls m ++ trace)%list /\
    (stops_at_first_error (config_Mailstore (config (sess m))) trace ret_ oerr
     \/ (trace = [] /\ ret_ = [] /\ oerr <> None)).
Proof.
  intros H. destruct (last_char mboxPattern) as [c|] eqn:Hc.
  - destruct (Ascii.eqb c "*" || Ascii.eqb c "%") eqn:Hw.
    + destruct (session_list_wildcard reference mboxPattern c Hc Hw)
        as [part [expr Hshape]].
      rewrite Hshape in H. destruct (regexp_Compile expr) as [re|err].
      * apply listMailboxes_traversal in H.
        destruct H as [Hs [trace [Hcalls Hstop]]]. split; [exact Hs|].
        exists trace. split; [exact Hcalls|]. left. exact Hstop.
      * injection H as <- <- <-. split; [reflexivity|]. exists [].
        rewrite app_nil_r. split; [reflexivity|]. right.
        repeat split. discriminate.
    + apply orb_false_iff in Hw. destruct Hw as [H1 H2].
      rewrite (session_list_literal _ _ _ c) in H by assumption.
      apply listMailboxes_traversal in H.
      destruct H as [Hs [trace [Hcalls Hstop]]]. split; [exact Hs|].
      exists trace. split; [exact Hcalls|]. left. exact Hstop.
  - unfold session_list, bind, lift in H. rewrite index_at_last, Hc in H.
    discriminate.
Qed.

End TraversalFacts.

Section CommandFacts.

Context {RL : RegexpLib} {FV : FlagVocabulary}.

(** LIST leaves the session alone; either every query it made succeeded, or
    it stopped at the first failing one and answers NO with the error text
    and the close flag. *)
Lemma list_execute_result (fuel : nat) (t reference mboxPattern : string)
    (m m' : machine) (r : response) :
  list_execute fuel t reference mboxPattern m = Done r m' ->
  sess m' = sess m /\
  exists trace : list call,
    calls m' = (calls m ++ trace)%list /\
    (Forall (fun c => call_error (config_Mailstore (config (sess m))) c = None)
            trace
     \/ exists err,
          stops_at_first_error (config_Mailstore (config (sess m)))
                               trace [] (Some err)
          /\ r = shouldClose (no t ("LIST " ++ err))).
Proof.
  assert (quiet : sess m = sess m /\
                  exists trace : list call,
                    calls m = (calls m ++ trace)%list /\
                    (Forall (fun c => call_error
                               (config_Mailstore (config (sess m))) c = None)
                            trace
                     \/ exists err,
                         stops_at_first_error
                           (config_Mailstore (config (sess m)))
                           trace [] (Some err)
                         /\ r = shouldClose (no t ("LIST " ++ err)))).
  { split; [reflexivity|]. exists []. rewrite app_nil_r.
    split; [reflexivity|]. left. constructor. }
  unfold list_execute. unfold bind at 1. unfold get_sess.
  destruct (negb (state_eqb (st (sess m)) authenticated)).
  { run_machine. intros [= <- <-]. exact quiet. }
  destruct (String.eqb mboxPattern EmptyString).
  { unfold ret. intros [= <- <-]. exact quiet. }
  unfold bind at 1. unfold lift at 1.
  destruct (addTrailingDelimiter reference) as [ref'|]; [|discriminate].
  unfold bind at 1. unfold lift at 1.
  destruct (removeDelimiters mboxPattern) as [pat'|]; [|discriminate].
  unfold bind at 1.
  destruct (session_list fuel ref' pat' m) as [[mboxes oerr] m1| |] eqn:El;
    try discriminate.
  apply session_list_traversal in El.
  destruct El as [Hs [trace [Hc Hcase]]].
  destruct oerr as [err|].
  - run_machine. intros [= <- <-]. cbn [sess calls]. split; [exact Hs|].
    exists trace. split; [exact Hc|].
    destruct Hcase as [Hstop | [-> _]]; [|left; constructor].
    right. exists err. simpl in *. destruct Hstop as [_ Hstop].
    repeat split. exact Hstop.
  - destruct Hcase as [Hstop | [_ [_ Habs]]]; [|congruence].
    simpl in Hstop.
    destruct (len_list_is_zero mboxes); unfold ret; intros [= <- <-];
      (split; [exact Hs|]); exists trace; (split; [exact Hc|]);
      left; exact Hstop.
Qed.

End CommandFacts.

(* ===================================================================== *)
(** ** The resolver: what it returns                                     *)
(* ===================================================================== *)

Lemma no_wildcard_last (s : string) (c : ascii) :
  no_wildcard s = true -> last_char s = Some c ->
  Ascii.eqb c "*" = false /\ Ascii.eqb c "%" = false.
Proof.
  induction s as [|d s IH]; [discriminate|].
  cbn [no_wildcard]. rewrite !andb_true_iff, !negb_true_iff.
  intros [[H1 H2] Hs] Hl. destruct s as [|e s].
  - injection Hl as <-. split; assumption.
  - apply IH; assumption.
Qed.

Lemma filter_kept_None {RL : RegexpLib} (l : list Mailbox) :
  filter (kept None) l = l.
Proof.
  induction l as [|x l IH]; [reflexivity|]. simpl. rewrite IH. reflexivity.
Qed.

(** C6, as amended. For a non-empty pattern without wildcard character the
    resolver makes exactly one storage query, at the path reference+pattern,
    applies no filter and does not recurse: it returns the Mailstore's
    answer for that path as it is, every mailbox of it in order, or its
    error. *)
Theorem list_literal_pattern :
  forall (RL : RegexpLib) (fuel : nat) (reference mboxPattern : string)
         (m : machine),
    mboxPattern <> EmptyString ->
    no_wildcard mboxPattern = true ->
    session_list (S fuel) reference mboxPattern m =
    match GetMailboxes (config_Mailstore (config (sess m)))
                       (reference ++ mboxPattern) with
    | (_, Some err) =>
        Done ([], Some err) (after_query m (reference ++ mboxPattern))
    | (current, None) =>
        Done (current, None) (after_query m (reference ++ mboxPattern))
    end.
Proof.
  intros RL fuel reference mboxPattern m Hne Hnw.
  destruct (last_char_nonempty _ Hne) as [c Hc].
  destruct (no_wildcard_last _ _ Hnw Hc) as [H1 H2].
  rewrite (session_list_literal _ _ _ c) by assumption.
  rewrite listMailboxes_flat.
  destruct (GetMailboxes (config_Mailstore (config (sess m)))
                         (reference ++ mboxPattern)) as [current [err|]];
    [reflexivity|].
  rewrite filter_kept_None. reflexivity.
Qed.

Lemma append_nonempty (a b : string) :
  a <> EmptyString -> a ++ b <> EmptyString.
Proof. destruct a; [congruence|discriminate]. Qed.

Lemma child_path_nonempty (path name : string) :
  path <> EmptyString -> child_path path name <> EmptyString.
Proof.
  intros H. unfold child_path.
  destruct (last_char path) as [c|]; [destruct (Ascii.eqb c pathDelimiter)|];
    apply append_nonempty; exact H.
Qed.

Lemma depth_forest_In (t : mtree) (ts : list mtree) :
  In t ts -> (depth_forest (children_of t) < depth_forest ts)%nat.
Proof.
  induction ts as [|u ts IH]; [intros []|].
  intros [-> | Hin]; cbn [depth_forest fold_right].
  - destruct t as [r cs]. cbn [depth children_of]. fold (depth_forest cs).
    fold (depth_forest ts). lia.
  - specialize (IH Hin). fold (depth_forest ts). lia.
Qed.

Section PreorderFacts.

Context {RL : RegexpLib}.

(** The loop of a recursive listing over the roots of [forest], when the
    recursive call lists every stored hierarchy in pre-order. *)
Lemma listMailboxes_loop_preorder (fuel : nat) (ms : Mailstore)
    (path : string) (mboxRe : option Regexp) :
  (forall (p : string) (forest : list mtree) (m : machine),
      stored ms p forest -> config_Mailstore (config (sess m)) = ms ->
      p <> EmptyString -> (depth_forest forest < fuel)%nat ->
      exists m', listMailboxes fuel p None true m
                 = Done (flat_map preorder forest, None) m'
                 /\ sess m' = sess m) ->
  path <> EmptyString ->
  forall (forest : list mtree) (ret_ : list Mailbox) (m : machine),
    config_Mailstore (config (sess m)) = ms ->
    (forall t, In t forest ->
       stored ms (child_path path (Name (root_of t))) (children_of t)) ->
    (forall t, In t forest -> (depth_forest (children_of t) < fuel)%nat) ->
    exists m',
      listMailboxes_loop (fun p => listMailboxes fuel p None true)
                         path mboxRe true (map root_of forest) ret_ m
      = Done ((ret_ ++ flat_map preorder
                         (filter (fun t => kept mboxRe (root_of t)) forest))%list,
              None) m'
      /\ sess m' = sess m.
Proof.
  intros Hself Hpath. destruct (last_char_nonempty _ Hpath) as [c Hc].
  induction forest as [|t ts IH]; intros ret_ m Hms Hst Hd.
  - exists m. simpl. rewrite app_nil_r. split; reflexivity.
  - cbn [map listMailboxes_loop filter].
    assert (Hts : forall u, In u ts ->
              stored ms (child_path path (Name (root_of u))) (children_of u))
      by (intros u Hu; apply Hst; right; exact Hu).
    assert (Hdts : forall u, In u ts ->
              (depth_forest (children_of u) < fuel)%nat)
      by (intros u Hu; apply Hd; right; exact Hu).
    assert (Hskip : match mboxRe with
                    | Some re => negb (MatchString re (Name (root_of t)))
                    | None => false
                    end = negb (kept mboxRe (root_of t)))
      by (destruct mboxRe; reflexivity).
    rewrite Hskip. destruct (kept mboxRe (root_of t)); cbn [negb].
    + unfold bind at 1. unfold lift. rewrite index_at_last, Hc.
      replace (if Ascii.eqb c pathDelimiter
               then path ++ Name (root_of t)
               else path ++ "/" ++ Name (root_of t))
        with (child_path path (Name (root_of t)))
        by (unfold child_path; rewrite Hc; reflexivity).
      destruct (Hself (child_path path (Name (root_of t))) (children_of t) m)
        as [m1 [Hrun Hs1]].
      * apply Hst. left. reflexivity.
      * exact Hms.
      * apply child_path_nonempty. exact Hpath.
      * apply Hd. left. reflexivity.
      * unfold bind. rewrite Hrun.
        destruct (IH ((ret_ ++ [root_of t]) ++ flat_map preorder (children_of t))%list
                     m1) as [m2 [Hloop Hs2]]; try assumption.
        { rewrite Hs1. exact Hms. }
        exists m2. rewrite Hloop. split; [|congruence].
        destruct t as [r cs]. cbn [root_of children_of flat_map preorder].
        rewrite <- !app_assoc. reflexivity.
    + apply IH; assumption.
Qed.

(** A recursive listing of a stored hierarchy returns it in pre-order, the
    filter applying to the first level only. *)
Lemma listMailboxes_preorder (ms : Mailstore) (fuel : nat) :
  forall (path : string) (forest : list mtree) (mboxRe : option Regexp)
         (m : machine),
    stored ms path forest -> config_Mailstore (config (sess m)) = ms ->
    path <> EmptyString -> (depth_forest forest < fuel)%nat ->
    exists m',
      listMailboxes fuel path mboxRe true m
      = Done (flat_map preorder
                (filter (fun t => kept mboxRe (root_of t)) forest), None) m'
      /\ sess m' = sess m.
Proof.
  induction fuel as [|fuel IH]; intros path forest mboxRe m Hst Hms Hp Hd;
    [lia|].
  inversion Hst as [path' forest' Hget Hsub]; subst path' forest'.
  cbn [listMailboxes]. unfold bind, log_Print, mailstore_call.
  cbn [sess calls logged]. rewrite Hms, Hget.
  destruct (listMailboxes_loop_preorder fuel ms path mboxRe) with
    (forest := forest) (ret_ := @nil Mailbox)
    (m := mkMachine (sess m) (calls m ++ [CallGetMailboxes path])
                    (logged m ++ ["listMailboxes " ++ path]))
    as [m' [Hrun Hs]].
  - intros p f m0 H1 H2 H3 H4.
    destruct (IH p f None m0 H1 H2 H3 H4) as [m1 [Hr Hs1]].
    exists m1. split; [|exact Hs1]. rewrite Hr.
    assert (E : filter (fun t => kept None (root_of t)) f = f).
    { clear. induction f as [|x f IHf]; [reflexivity|].
      simpl. f_equal. exact IHf. }
    rewrite E. reflexivity.
  - exact Hp.
  - exact Hms.
  - exact Hsub.
  - intros t Hin. apply depth_forest_In in Hin. lia.
  - exists m'. split; [exact Hrun|exact Hs].
Qed.

End PreorderFacts.

Lemma filter_kept_None_forest {RL : RegexpLib} (f : list mtree) :
  filter (fun t => kept None (root_of t)) f = f.
Proof.
  induction f as [|x f IH]; [reflexivity|]. simpl. f_equal. exact IH.
Qed.

Lemma addTrailingDelimiter_nonempty (s r : string) :
  addTrailingDelimiter s = Val r -> r <> EmptyString.
Proof.
  rewrite addTrailingDelimiter_cases.
  destruct (last_char s) as [c|] eqn:Hc; [|discriminate].
  assert (Hs : s <> EmptyString) by (intros ->; discriminate).
  destruct (Ascii.eqb c pathDelimiter); intros [= <-];
    [exact Hs | apply append_nonempty; exact Hs].
Qed.

Section FailureFacts.

Context {RL : RegexpLib}.

(** A failing query ends the walk at once, whatever the filter and the
    recursion flag. *)
Lemma listMailboxes_fails_here (fuel : nat) (path : string)
    (mboxRe : option Regexp) (recursive : bool) (m : machine)
    (current : list Mailbox) (err : error) :
  GetMailboxes (config_Mailstore (config (sess m))) path
    = (current, Some err) ->
  listMailboxes (S fuel) path mboxRe recursive m
  = Done ([], Some err) (after_query m path).
Proof.
  intros H. cbn [listMailboxes].
  unfold bind, log_Print, mailstore_call, after_query.
  cbn [sess calls logged]. rewrite H. reflexivity.
Qed.

(** The loop of a recursive listing runs through the children whose
    hierarchies are stored, and goes on with the others. *)
Lemma listMailboxes_loop_prefix (fuel : nat) (ms : Mailstore) (path : string)
    (mboxRe : option Regexp) :
  path <> EmptyString ->
  forall (before : list mtree) (rest ret_ : list Mailbox) (m : machine),
    config_Mailstore (config (sess m)) = ms ->
    (forall t, In t before -> kept mboxRe (root_of t) = true ->
       stored ms (child_path path (Name (root_of t))) (children_of t)
       /\ (depth_forest (children_of t) < fuel)%nat) ->
    exists m',
      sess m' = sess m
      /\ listMailboxes_loop (fun p => listMailboxes fuel p None true)
                            path mboxRe true (map root_of before ++ rest)
                            ret_ m
         = listMailboxes_loop (fun p => listMailboxes fuel p None true)
                              path mboxRe true rest
                              (ret_ ++ flat_map preorder
                                 (filter (fun t => kept mboxRe (root_of t))
                                         before))%list
                              m'.
Proof.
  intros Hpath. destruct (last_char_nonempty _ Hpath) as [c Hc].
  induction before as [|t ts IH]; intros rest ret_ m Hms Hst.
  - exists m. cbn. rewrite app_nil_r. split; reflexivity.
  - cbn [map app listMailboxes_loop filter].
    assert (Hts : forall u, In u ts -> kept mboxRe (root_of u) = true ->
              stored ms (child_path path (Name (root_of u))) (children_of u)
              /\ (depth_forest (children_of u) < fuel)%nat)
      by (intros u Hu; apply Hst; right; exact Hu).
    assert (Hskip : match mboxRe with
                    | Some re => negb (MatchString re (Name (root_of t)))
                    | None => false
                    end = negb (kept mboxRe (root_of t)))
      by (destruct mboxRe; reflexivity).
    rewrite Hskip. destruct (kept mboxRe (root_of t)) eqn:Hk; cbn [negb].
    + destruct (Hst t (or_introl eq_refl) Hk) as [Hstored Hdepth].
      unfold bind at 1. unfold lift. rewrite index_at_last, Hc.
      replace (if Ascii.eqb c pathDelimiter
               then path ++ Name (root_of t)
               else path ++ "/" ++ Name (root_of t))
        with (child_path path (Name (root_of t)))
        by (unfold child_path; rewrite Hc; reflexivity).
      destruct (listMailboxes_preorder ms fuel
                  (child_path path (Name (root_of t))) (children_of t)
                  None m Hstored Hms (child_path_nonempty _ _ Hpath) Hdepth)
        as [m1 [Hrun Hs1]].
      rewrite filter_kept_None_forest in Hrun.
      unfold bind. rewrite Hrun.
      destruct (IH rest
                   ((ret_ ++ [root_of t])
                      ++ flat_map preorder (children_of t))%list m1)
        as [m2 [Hs2 Hloop]]; [rewrite Hs1; exact Hms | exact Hts |].
      exists m2. split; [congruence|]. rewrite Hloop.
      destruct t as [r cs]. cbn [root_of children_of flat_map preorder].
      rewrite <- !app_assoc. reflexivity.
    + apply IH; assumption.
Qed.

(** A recursive walk that runs into a failing query returns its error and
    no mailbox, given fuel above the depth of the failure. *)
Lemma listMailboxes_fails (ms : Mailstore) (path : string)
    (mboxRe : option Regexp) (err : error) (n : nat) :
  walk_fails ms path mboxRe err n ->
  forall (fuel : nat) (m : machine),
    (n < fuel)%nat ->
    config_Mailstore (config (sess m)) = ms ->
    path <> EmptyString ->
    exists m',
      listMailboxes fuel path mboxRe true m = Done ([], Some err) m'
      /\ sess m' = sess m.
Proof.
  intros H.
  induction H as [path mboxRe current err n Hget
                 | path mboxRe before child others err n Hget Hbefore Hk _ IH];
    intros fuel m Hfuel Hms Hpath;
    (destruct fuel as [|fuel]; [lia|]).
  - exists (after_query m path). split; [|reflexivity].
    apply (listMailboxes_fails_here _ _ _ _ _ current).
    rewrite Hms. exact Hget.
  - cbn [listMailboxes]. unfold bind at 1 2. unfold log_Print, mailstore_call.
    cbn [sess calls logged]. rewrite Hms, Hget.
    destruct (listMailboxes_loop_prefix fuel ms path mboxRe Hpath before
                (child :: others) []
                (mkMachine (sess m) (calls m ++ [CallGetMailboxes path])
                           (logged m ++ ["listMailboxes " ++ path])) Hms)
      as [m1 [Hs1 Hloop]].
    { intros t Hin Hkt. destruct (Hbefore t Hin Hkt) as [Hst Hd].
      split; [exact Hst | lia]. }
    rewrite Hloop. cbn [listMailboxes_loop].
    assert (Hskip : match mboxRe with
                    | Some re => negb (MatchString re (Name child))
                    | None => false
                    end = negb (kept mboxRe child))
      by (destruct mboxRe; reflexivity).
    rewrite Hskip, Hk. cbn [negb].
    destruct (last_char_nonempty _ Hpath) as [c Hc].
    unfold bind at 1. unfold lift. rewrite index_at_last, Hc.
    replace (if Ascii.eqb c pathDelimiter
             then path ++ Name child
             else path ++ "/" ++ Name child)
      with (child_path path (Name child))
      by (unfold child_path; rewrite Hc; reflexivity).
    destruct (IH fuel m1) as [m2 [Hrun Hs2]];
      [lia | rewrite Hs1; exact Hms | apply child_path_nonempty; exact Hpath |].
    unfold bind. rewrite Hrun. exists m2. split; [reflexivity|].
    cbn [sess] in Hs1. congruence.
Qed.

End FailureFacts.

(** C8. In every directory walk the calls made are queries of which at most
    the last one failed; when it failed the walk returns that error and no
    mailbox at all, and the session is untouched; the same holds of the
    result of [session.list]. When a query of a LIST command failed, the
    command stopped at that query, the first to fail, and answers NO with
    the text of its error, no untagged line and the close flag set.

    These results are produced. A walk whose first query fails returns the
    error at once, whatever its filter and flag. A recursive walk that
    runs into a failing query at any depth, after any number of stored
    hierarchies, returns the error alone, given fuel above that depth.
    When [session.list] returns an error, LIST answers NO with the error
    text and the close flag; so does LIST of a pattern without wildcard
    when the lookup fails, and LIST of the pattern "*" when its walk runs
    into a failing query. *)
Theorem list_stops_at_first_error :
  forall (RL : RegexpLib) (FV : FlagVocabulary),
    (forall (fuel : nat) (path : string) (mboxRe : option Regexp)
            (recursive : bool) (m m' : machine) (ret_ : list Mailbox)
            (oerr : option error),
        listMailboxes fuel path mboxRe recursive m = Done (ret_, oerr) m' ->
        sess m' = sess m /\
        exists trace : list call,
          calls m' = (calls m ++ trace)%list /\
          stops_at_first_error (config_Mailstore (config (sess m)))
                               trace ret_ oerr)
    /\ (forall (fuel : nat) (reference mboxPattern : string)
               (m m' : machine) (ret_ : list Mailbox) (err : error),
          session_list fuel reference mboxPattern m
            = Done (ret_, Some err) m' ->
          ret_ = [] /\ sess m' = sess m)
    /\ (forall (fuel : nat) (t reference mboxPattern : string)
               (m m' : machine) (r : response) (trace : list call),
          list_execute fuel t reference mboxPattern m = Done r m' ->
          calls m' = (calls m ++ trace)%list ->
          Exists (fun c => call_error (config_Mailstore (config (sess m))) c
                           <> None) trace ->
          exists (before : list call) (p : string) (err : error),
            trace = (before ++ [CallGetMailboxes p])%list /\
            Forall (fun c => call_error (config_Mailstore (config (sess m))) c
                             = None) before /\
            snd (GetMailboxes (config_Mailstore (config (sess m))) p)
              = Some err /\
            r = mkResponse t NO ("LIST " ++ err) [] true)
    /\ (forall (fuel : nat) (path : string) (mboxRe : option Regexp)
               (recursive : bool) (m : machine) (current : list Mailbox)
               (err : error),
          GetMailboxes (config_Mailstore (config (sess m))) path
            = (current, Some err) ->
          listMailboxes (S fuel) path mboxRe recursive m
          = Done ([], Some err) (after_query m path))
    /\ (forall (path : string) (mboxRe : option Regexp) (err : error)
               (n fuel : nat) (m : machine),
          walk_fails (config_Mailstore (config (sess m))) path mboxRe err n ->
          (n < fuel)%nat ->
          path <> EmptyString ->
          exists m',
            listMailboxes fuel path mboxRe true m = Done ([], Some err) m'
            /\ sess m' = sess m)
    /\ (forall (fuel : nat) (t reference mboxPattern ref' pat' : string)
               (ret_ : list Mailbox) (err : error) (m m1 : machine),
          st (sess m) = authenticated ->
          mboxPattern <> EmptyString ->
          addTrailingDelimiter reference = Val ref' ->
          removeDelimiters mboxPattern = Val pat' ->
          session_list fuel ref' pat' m = Done (ret_, Some err) m1 ->
          list_execute fuel t reference mboxPattern m
          = Done (mkResponse t NO ("LIST " ++ err) [] true)
                 (after_log m1 ("LIST " ++ err)))
    /\ (forall (fuel : nat) (t reference mboxPattern ref' pat' : string)
               (current : list Mailbox) (err : error) (m : machine),
          st (sess m) = authenticated ->
          mboxPattern <> EmptyString ->
          addTrailingDelimiter reference = Val ref' ->
          removeDelimiters mboxPattern = Val pat' ->
          pat' <> EmptyString ->
          no_wildcard pat' = true ->
          GetMailboxes (config_Mailstore (config (sess m))) (ref' ++ pat')
            = (current, Some err) ->
          list_execute (S fuel) t reference mboxPattern m
          = Done (mkResponse t NO ("LIST " ++ err) [] true)
                 (after_log (after_query m (ref' ++ pat')) ("LIST " ++ err)))
    /\ (forall (fuel n : nat) (t reference ref' : string) (re : Regexp)
               (err : error) (m : machine),
          st (sess m) = authenticated ->
          addTrailingDelimiter reference = Val ref' ->
          regexp_Compile ".*" = inl re ->
          walk_fails (config_Mailstore (config (sess m))) ref' (Some re)
                     err n ->
          (n < fuel)%nat ->
          exists m',
            list_execute fuel t reference "*" m
            = Done (mkResponse t NO ("LIST " ++ err) [] true) m'
            /\ sess m' = sess m).
Proof.
  intros RL FV.
  assert (answer : forall fuel t reference mboxPattern ref' pat' ret_ err m m1,
             st (sess m) = authenticated ->
             mboxPattern <> EmptyString ->
             addTrailingDelimiter reference = Val ref' ->
             removeDelimiters mboxPattern = Val pat' ->
             session_list fuel ref' pat' m = Done (ret_, Some err) m1 ->
             list_execute fuel t reference mboxPattern m
             = Done (mkResponse t NO ("LIST " ++ err) [] true)
                    (after_log m1 ("LIST " ++ err))).
  { intros fuel t reference mboxPattern ref' pat' ret_ err m m1
           Hst Hp Hadd Hrem Hlist.
    unfold list_execute. unfold bind at 1. unfold get_sess. rewrite Hst.
    cbn [state_eqb negb]. apply String.eqb_neq in Hp. rewrite Hp.
    unfold bind at 1. rewrite Hadd. cbn [lift].
    unfold bind at 1. rewrite Hrem. cbn [lift].
    unfold bind at 1. rewrite Hlist. reflexivity. }
  split; [|split; [|split; [|split; [|split; [|split; [|split]]]]]].
  - intros fuel path mboxRe recursive m m' ret_ oerr H.
    exact (listMailboxes_traversal fuel path mboxRe recursive m m' ret_ oerr H).
  - intros fuel reference mboxPattern m m' ret_ err H.
    apply session_list_traversal in H.
    destruct H as [Hs [trace [_ [Hstop | [_ [Hret _]]]]]].
    + simpl in Hstop. destruct Hstop as [Hret _]. split; assumption.
    + split; assumption.
  - intros fuel t reference mboxPattern m m' r trace H Hcalls Hfail.
    apply list_execute_result in H.
    destruct H as [_ [trace' [Hcalls' Hcase]]].
    assert (trace' = trace) as ->.
    { rewrite Hcalls' in Hcalls. exact (app_inv_head _ _ _ Hcalls). }
    destruct Hcase as [Hok | [err [Hstop ->]]].
    + exfalso. apply Exists_exists in Hfail. destruct Hfail as [c [Hin Hc]].
      rewrite Forall_forall in Hok. exact (Hc (Hok c Hin)).
    + simpl in Hstop. destruct Hstop as [_ [before [p [-> [Hp Hb]]]]].
      exists before, p, err. repeat split; assumption.
  - intros fuel path mboxRe recursive m current err H.
    exact (listMailboxes_fails_here fuel path mboxRe recursive m current err H).
  - intros path mboxRe err n fuel m H Hfuel Hpath.
    exact (listMailboxes_fails _ path mboxRe err n H fuel m Hfuel eq_refl Hpath).
  - exact answer.
  - intros fuel t reference mboxPattern ref' pat' current err m
           Hst Hp Hadd Hrem Hpat Hnw Hget.
    apply (answer _ _ _ _ ref' pat' []); try assumption.
    destruct (last_char_nonempty _ Hpat) as [c Hc].
    destruct (no_wildcard_last _ _ Hnw Hc) as [H1 H2].
    rewrite (session_list_literal _ _ _ c) by assumption.
    exact (listMailboxes_fails_here _ _ _ _ _ current err Hget).
  - intros fuel n t reference ref' re err m Hst Hadd Hcomp Hfail Hfuel.
    assert (Hlist : session_list fuel ref' "*" m
                    = listMailboxes fuel ref' (Some re) true m).
    { unfold session_list, bind, lift, ret.
      cbn -[listMailboxes regexp_Compile].
      rewrite Hcomp, append_empty_r. reflexivity. }
    destruct (listMailboxes_fails _ ref' (Some re) err n Hfail fuel m Hfuel
                eq_refl (addTrailingDelimiter_nonempty _ _ Hadd))
      as [m1 [Hrun Hs]].
    exists (after_log m1 ("LIST " ++ err)). split; [|exact Hs].
    apply (answer _ _ _ _ ref' "*" []); try assumption.
    + discriminate.
    + reflexivity.
    + rewrite Hlist. exact Hrun.
Qed.


(** C5. The filter expression is cut one character short of the wildcard:
    whatever the regular expression library, the pattern "a%" is resolved
    exactly as "%" and "a*" exactly as "*". On the example store, at the
    reference "/", the pattern "a%" therefore keeps every top-level
    mailbox, among them INBOX, whose name does not begin with "a". The
    pattern "Work/re%" queries the parent path "/Work" only and keeps
    nothing, although "reports" begins with "re": below a parent path the
    expression starts at the delimiter. *)
Theorem list_prefix_filter_misses :
  (forall (RL : RegexpLib) (fuel : nat) (reference : string) (m : machine),
      session_list fuel reference "a%" m = session_list fuel reference "%" m
      /\ session_list fuel reference "a*" m
         = session_list fuel reference "*" m)
  /\ let m := machine_in authenticated (exampleStore None) in
     session_list (RL := GoRegexpFragment) 1 "/" "a%" m
       = Done ([mbInbox; mbWork; mbApple], None) (after_query m "/")
     /\ String.prefix "a" (Name mbInbox) = false
     /\ session_list (RL := GoRegexpFragment) 1 "/" "Work/re%" m
        = Done ([], None) (after_query m "/Work")
     /\ GetMailboxes (exampleStore None) "/Work"
        = ([mbReports; mbDrafts], None)
     /\ String.prefix "re" (Name mbReports) = true.
Proof.
  split.
  - intros RL fuel reference m. split; reflexivity.
  - cbv zeta. repeat split; reflexivity.
Qed.

(* ===================================================================== *)
(** ** SELECT and the session fields                                     *)
(* ===================================================================== *)

(** SELECT never writes the state, the id or the configuration; when it
    answers OK the session was Authenticated and the mailbox found is the
    one recorded. *)
Lemma selectMailbox_execute_frame (t name : string) (m m' : machine)
    (r : response) :
  selectMailbox_execute t name m = Done r m' ->
  st (sess m') = st (sess m) /\
  id (sess m') = id (sess m) /\
  config (sess m') = config (sess m) /\
  (condition r = OK ->
   st (sess m) = authenticated /\
   exists mbox,
     GetMailbox (config_Mailstore (config (sess m))) name = (Some mbox, None)
     /\ mailbox (sess m') = Some mbox).
Proof.
  unfold selectMailbox_execute, addMailboxInfo. run_machine.
  destruct (state_eqb (st (sess m)) authenticated) eqn:Est; cbn [negb].
  2:{ intros [= <- <-]. cbn. repeat split; intros; discriminate. }
  apply state_eqb_eq in Est.
  destruct (GetMailbox (config_Mailstore (config (sess m))) name)
    as [[mbox|] [err|]]; cbn;
    try (intros [= <- <-]; cbn; repeat split; intros; discriminate).
  destruct (FirstUnseen (config_Mailstore (config (sess m))) (Id mbox))
    as [n1 [e1|]]; cbn;
    try (intros [= <- <-]; cbn; repeat split; intros; discriminate).
  destruct (TotalMessages (config_Mailstore (config (sess m))) (Id mbox))
    as [n2 [e2|]]; cbn;
    try (intros [= <- <-]; cbn; repeat split; intros; discriminate).
  destruct (RecentMessages (config_Mailstore (config (sess m))) (Id mbox))
    as [n3 [e3|]]; cbn;
    try (intros [= <- <-]; cbn; repeat split; intros; discriminate).
  destruct (NextUid (config_Mailstore (config (sess m))) (Id mbox))
    as [n4 [e4|]]; cbn;
    try (intros [= <- <-]; cbn; repeat split; intros; discriminate).
  intros [= <- <-]. cbn. repeat split; try assumption.
  exists mbox. split; reflexivity.
Qed.

(** C10. A SELECT that answers OK changes the selected-mailbox field only:
    the state is Authenticated before and after, the id and the
    configuration are unchanged, the mailbox found is recorded. No command
    moves a session into the Selected state, and a new session starts in
    NotAuthenticated. *)
Theorem select_changes_only_the_mailbox :
  forall (RL : RegexpLib) (FV : FlagVocabulary),
    (forall (t name : string) (m m' : machine) (r : response),
        selectMailbox_execute t name m = Done r m' ->
        condition r = OK ->
        exists mbox,
          GetMailbox (config_Mailstore (config (sess m))) name
            = (Some mbox, None)
          /\ sess m' = set_mailbox (sess m) (Some mbox)
          /\ st (sess m) = authenticated
          /\ st (sess m') = authenticated
          /\ id (sess m') = id (sess m)
          /\ config (sess m') = config (sess m))
    /\ (forall (fuel : nat) (c : command) (m m' : machine) (r : response),
          execute fuel c m = Done r m' ->
          st (sess m) <> selected -> st (sess m') <> selected)
    /\ (forall (i : Z) (cfg : Config),
          st (createSession i cfg) = notAuthenticated).
Proof.
  intros RL FV. split; [|split].
  - intros t name m m' r H Hok.
    destruct (selectMailbox_execute_frame _ _ _ _ _ H)
      as [Hst [Hid [Hcfg Hsel]]].
    destruct (Hsel Hok) as [Hauth [mbox [Hget Hmb]]].
    exists mbox. repeat split; try assumption; try congruence.
    destruct (sess m') as [i' s' b' c'], (sess m) as [i0 s0 b0 c0].
    unfold set_mailbox. cbn in *. congruence.
  - intros fuel c m m' r H Hnot Hsel. apply Hnot. clear Hnot.
    destruct c; cbn [execute] in H.
    + injection H as <- <-. exact Hsel.
    + injection H as <- <-. exact Hsel.
    + unfold login_execute in H. revert H. run_machine.
      destruct (negb (state_eqb (st (sess m)) notAuthenticated)).
      * intros [= <- <-]. exact Hsel.
      * destruct (String.eqb userId "test"); intros [= <- <-];
          [discriminate Hsel | exact Hsel].
    + unfold logout_execute in H. revert H. run_machine.
      intros [= <- <-]. discriminate Hsel.
    + apply selectMailbox_execute_frame in H. destruct H as [Hst _].
      congruence.
    + apply list_execute_result in H. destruct H as [Hs _]. congruence.
    + unfold unknown_execute in H. revert H. run_machine.
      intros [= <- <-]. exact Hsel.
  - reflexivity.
Qed.

(* ===================================================================== *)
(** ** Runs on the example store                                         *)
(* ===================================================================== *)


(** C1, the sentence as written fails: SELECT of the existing mailbox INBOX
    answers with the total-messages line first and the first-unseen line
    third, so the lines are not in the order first-unseen, total messages,
    recent messages, next UID. *)
Lemma select_counter_order_refuted :
  exists (r : response) (m' : machine),
    selectMailbox_execute "a1" "INBOX"
      (machine_in authenticated (exampleStore None)) = Done r m'
    /\ ~ lines_in_counter_order 3 7 2 9 (untagged r).
Proof.
  eexists _, _. split; [cbv; reflexivity|].
  intros [i [j [k [l [Hi [Hj [_ [_ [Hij _]]]]]]]]].
  vm_compute in Hi, Hj. injection Hi as <-. injection Hj as <-. lia.
Qed.

Lemma selectMailbox_execute_cases_witness :
  let m := machine_in authenticated (exampleStore None) in
  st (sess m) = authenticated
  /\ GetMailbox (exampleStore None) "INBOX" = (Some mbInbox, None)
  /\ FirstUnseen (exampleStore None) 5 = (3, None)
  /\ TotalMessages (exampleStore None) 5 = (7, None)
  /\ RecentMessages (exampleStore None) 5 = (2, None)
  /\ NextUid (exampleStore None) 5 = (9, None)
  /\ selectMailbox_execute "a1" "INBOX" m =
     Done (mkResponse "a1" OK "SELECT completed"
             ["7 EXISTS"; "2 RECENT"; "OK [UNSEEN 3] Message 3 is first unseen";
              "OK [UIDVALIDITY 5] UIDs valid";
              "OK [UIDNEXT 9] Predicted next UID"] false)
          (mkMachine (set_mailbox (sess m) (Some mbInbox))
             [CallGetMailbox "INBOX"; CallFirstUnseen 5; CallTotalMessages 5;
              CallRecentMessages 5; CallNextUid 5] [])
  /\ GetMailbox (exampleStore None) "Trash" = (None, None)
  /\ selectMailbox_execute "a2" "Trash" m =
     Done (no "a2" "SELECT No such mailbox")
          (mkMachine (sess m) [CallGetMailbox "Trash"] [])
  /\ st (sess (machine_in notAuthenticated (exampleStore None)))
     <> authenticated
  /\ selectMailbox_execute "a3" "INBOX"
       (machine_in notAuthenticated (exampleStore None)) =
     Done (bad "a3" "SELECT not authenticated")
          (mkMachine (sess (machine_in notAuthenticated (exampleStore None)))
                     [] ["IMAP (1) SELECT not authenticated"]).
Proof.
  cbv zeta.
  assert (Hnot : st (sess (machine_in notAuthenticated (exampleStore None)))
                 <> authenticated) by discriminate.
  do 6 (split; [reflexivity|]). split; [|split; [reflexivity|split;
    [|split; [exact Hnot|]]]].
  - exact (proj1 (proj2 (proj2
             (selectMailbox_execute_cases "a1" "INBOX"
                (machine_in authenticated (exampleStore None)))))
             mbInbox 3 7 2 9 eq_refl eq_refl eq_refl eq_refl eq_refl eq_refl).
  - exact (proj1 (proj2
             (selectMailbox_execute_cases "a2" "Trash"
                (machine_in authenticated (exampleStore None))))
             eq_refl eq_refl).
  - exact (proj1
             (selectMailbox_execute_cases "a3" "INBOX"
                (machine_in notAuthenticated (exampleStore None)))
             Hnot).
Defined.

(** C2, the sentence as written fails: no credential pair is the only one
    that logs in, since the password is never read. *)
Lemma login_sentinel_pair_refuted :
  ~ exists sentinelUser sentinelPassword : string,
      forall userId password : string,
        login_execute "a1" userId password
          (machine_in notAuthenticated (exampleStore None))
        = Done (ok "a1" "LOGIN completed")
               (machine_in authenticated (exampleStore None))
        <-> (userId, password) = (sentinelUser, sentinelPassword).
Proof.
  intros [u0 [p0 H]].
  assert (H1 := proj1 (H "test" p0) eq_refl).
  assert (H2 := proj1 (H "test" (String "x" p0)) eq_refl).
  injection H2 as _ H2. exact (String_neq_tail _ _ H2).
Qed.

Lemma login_execute_cases_witness :
  let m := machine_in notAuthenticated (exampleStore None) in
  let m1 := machine_in authenticated (exampleStore None) in
  (st (sess m) = notAuthenticated
   /\ login_execute "a1" "test" "any password" m
      = Done (ok "a1" "LOGIN completed") m1)
  /\ ("guest" <> "test"
      /\ login_execute "a2" "guest" "secret" m
         = Done (no "a2" "LOGIN failure") m)
  /\ (st (sess m1) <> notAuthenticated
      /\ login_execute "a3" "test" "any password" m1
         = Done (bad "a3" "LOGIN already logged in")
                (after_log m1 "LOGIN already logged in")).
Proof.
  cbv zeta.
  assert (Hguest : "guest" <> "test") by discriminate.
  assert (Hauth : st (sess (machine_in authenticated (exampleStore None)))
                  <> notAuthenticated) by discriminate.
  split; [split; [reflexivity|] | split; [split; [exact Hguest|]
                                         | split; [exact Hauth|]]].
  - exact (proj1 (login_execute_cases "a1" "test" "any password"
                    (machine_in notAuthenticated (exampleStore None)))
                 eq_refl eq_refl).
  - exact (proj1 (proj2 (login_execute_cases "a2" "guest" "secret"
                    (machine_in notAuthenticated (exampleStore None))))
                 eq_refl Hguest).
  - exact (proj2 (proj2 (login_execute_cases "a3" "test" "any password"
                    (machine_in authenticated (exampleStore None))))
                 Hauth).
Defined.

Lemma list_empty_pattern_witness :
  let m := machine_in authenticated (exampleStore None) in
  st (sess m) = authenticated
  /\ exists line : string,
       list_execute (RL := GoRegexpFragment) (FV := exampleFlags)
                    0 "a1" "INBOX" EmptyString m
       = Done (mkResponse "a1" OK "LIST completed" [line] false) m
       /\ occurs "INBOX" line = true
       /\ occurs pathDelimiterString line = false
       /\ occurs "%!s(int32=47)" line = true.
Proof.
  cbv zeta. split; [reflexivity|]. eexists. split.
  - exact (list_empty_pattern GoRegexpFragment exampleFlags 0 "a1" "INBOX"
             (machine_in authenticated (exampleStore None)) eq_refl).
  - repeat split; reflexivity.
Defined.

Lemma list_empty_reference_panics_witness :
  let m := machine_in authenticated (exampleStore None) in
  st (sess m) = authenticated
  /\ "%" <> EmptyString
  /\ addTrailingDelimiter EmptyString = Panic
  /\ list_execute (RL := GoRegexpFragment) (FV := exampleFlags)
                  5 "a1" EmptyString "%" m = Panicked
  /\ session_list (RL := GoRegexpFragment) 5 "/" "%" m
     = Done ([mbInbox; mbWork; mbApple], None) (after_query m "/").
Proof.
  cbv zeta.
  assert (Hp : "%" <> EmptyString) by discriminate.
  split; [reflexivity|]. split; [exact Hp|].
  refine (let H := list_empty_reference_panics GoRegexpFragment exampleFlags
                     5 "a1" "%"
                     (machine_in authenticated (exampleStore None))
                     eq_refl Hp in
          conj (proj1 H) (conj (proj2 H) _)).
  reflexivity.
Defined.

(** C6, the sentence as written fails: the exact lookup of "Work" returns
    the two mailboxes stored under "/Work", more than one entry. *)
Lemma list_exact_lookup_returns_children :
  exists (found : list Mailbox) (m' : machine),
    session_list (RL := GoRegexpFragment) 1 "/" "Work"
      (machine_in authenticated (exampleStore None)) = Done (found, None) m'
    /\ ~ (List.length found <= 1)%nat.
Proof.
  eexists _, _. split; [cbv; reflexivity|]. simpl. lia.
Qed.

Lemma list_literal_pattern_witness :
  let m := machine_in authenticated (exampleStore None) in
  "Work" <> EmptyString
  /\ no_wildcard "Work" = true
  /\ session_list (RL := GoRegexpFragment) 1 "/" "Work" m
     = Done ([mbReports; mbDrafts], None) (after_query m "/Work").
Proof.
  cbv zeta.
  assert (Hp : "Work" <> EmptyString) by discriminate.
  split; [exact Hp|]. split; [reflexivity|].
  exact (list_literal_pattern GoRegexpFragment 0 "/" "Work"
           (machine_in authenticated (exampleStore None)) Hp eq_refl).
Defined.


Lemma example_walk_fails :
  walk_fails (RL := GoRegexpFragment) (exampleStore (Some "/Work/reports"))
             "/" (Some [(AnyChar, true)]) "disk failure" 2.
Proof.
  apply (fails_below (RL := GoRegexpFragment) _ "/" _
                     [MNode mbInbox []] mbWork [mbApple]);
    [reflexivity | | reflexivity |].
  - intros t [<- | []] _. split; [|cbn; lia].
    apply stored_level; [reflexivity | intros u []].
  - apply (fails_below (RL := GoRegexpFragment) _ _ _ [] mbReports [mbDrafts]);
      [reflexivity | intros t [] | reflexivity |].
    apply (fails_at (RL := GoRegexpFragment) _ _ _ []). reflexivity.
Qed.

Lemma list_stops_at_first_error_witness :
  let ms := exampleStore (Some "/Work/reports") in
  let m := machine_in authenticated ms in
  let trace := [CallGetMailboxes "/"; CallGetMailboxes "/INBOX";
                CallGetMailboxes "/Work"; CallGetMailboxes "/Work/reports"] in
  let m' := mkMachine (sess m) trace
              ["listMailboxes /"; "listMailboxes /INBOX";
               "listMailboxes /Work"; "listMailboxes /Work/reports";
               "IMAP (1) LIST disk failure"] in
  let r := mkResponse "a1" NO "LIST disk failure" [] true in
  list_execute (RL := GoRegexpFragment) (FV := exampleFlags)
               5 "a1" "/" "*" m = Done r m'
  /\ calls m' = (calls m ++ trace)%list
  /\ Exists (fun c => call_error ms c <> None) trace
  /\ (exists (before : list call) (p : string) (err : error),
        trace = (before ++ [CallGetMailboxes p])%list
        /\ Forall (fun c => call_error ms c = None) before
        /\ snd (GetMailboxes ms p) = Some err
        /\ r = mkResponse "a1" NO ("LIST " ++ err) [] true)
  /\ session_list (RL := GoRegexpFragment) 5 "/" "*" m
     = Done ([], Some "disk failure")
            (mkMachine (sess m) trace
               ["listMailboxes /"; "listMailboxes /INBOX";
                "listMailboxes /Work"; "listMailboxes /Work/reports"])
  /\ (@nil Mailbox = [] /\ sess m = sess m)
  /\ addTrailingDelimiter "/" = Val "/"
  /\ regexp_Compile (RegexpLib := GoRegexpFragment) ".*"
     = inl [(AnyChar, true)]
  /\ walk_fails (RL := GoRegexpFragment) ms "/" (Some [(AnyChar, true)])
                "disk failure" 2
  /\ (2 < 5)%nat
  /\ (exists m1,
        listMailboxes (RL := GoRegexpFragment) 5 "/" (Some [(AnyChar, true)])
                      true m
        = Done ([], Some "disk failure") m1
        /\ sess m1 = sess m)
  /\ (exists m2,
        list_execute (RL := GoRegexpFragment) (FV := exampleFlags)
                     5 "a2" "/" "*" m
        = Done (mkResponse "a2" NO ("LIST " ++ "disk failure") [] true) m2
        /\ sess m2 = sess m).
Proof.
  cbv zeta.
  assert (Hfail : Exists
            (fun c => call_error (exampleStore (Some "/Work/reports")) c
                      <> None)
            [CallGetMailboxes "/"; CallGetMailboxes "/INBOX";
             CallGetMailboxes "/Work"; CallGetMailboxes "/Work/reports"]).
  { do 3 apply Exists_cons_tl. apply Exists_cons_hd. discriminate. }
  assert (Hroot : "/" <> EmptyString) by discriminate.
  assert (Hfuel : (2 < 5)%nat) by lia.
  pose proof (list_stops_at_first_error GoRegexpFragment exampleFlags)
    as [_ [Hsession [Hcommand [_ [Hwalk [_ [_ Hstar]]]]]]].
  split; [reflexivity|]. split; [reflexivity|]. split; [exact Hfail|].
  split; [|split; [reflexivity|split; [|split; [reflexivity|split;
    [reflexivity|split; [exact example_walk_fails|split;
      [exact Hfuel|split]]]]]]].
  - exact (Hcommand 5%nat "a1" "/" "*"
             (machine_in authenticated (exampleStore (Some "/Work/reports")))
             _ _ _ eq_refl eq_refl Hfail).
  - exact (Hsession 5%nat "/" "*"
             (machine_in authenticated (exampleStore (Some "/Work/reports")))
             _ _ _ eq_refl).
  - exact (Hwalk "/" (Some [(AnyChar, true)]) "disk failure" 2%nat 5%nat
             (machine_in authenticated (exampleStore (Some "/Work/reports")))
             example_walk_fails Hfuel Hroot).
  - exact (Hstar 5%nat 2%nat "a2" "/" "/" [(AnyChar, true)] "disk failure"
             (machine_in authenticated (exampleStore (Some "/Work/reports")))
             eq_refl eq_refl eq_refl example_walk_fails Hfuel).
Defined.

Lemma select_changes_only_the_mailbox_witness :
  let m := machine_in authenticated (exampleStore None) in
  let m' := mkMachine (set_mailbox (sess m) (Some mbInbox))
              [CallGetMailbox "INBOX"; CallFirstUnseen 5; CallTotalMessages 5;
               CallRecentMessages 5; CallNextUid 5] [] in
  let r := mkResponse "a1" OK "SELECT completed"
             ["7 EXISTS"; "2 RECENT"; "OK [UNSEEN 3] Message 3 is first unseen";
              "OK [UIDVALIDITY 5] UIDs valid";
              "OK [UIDNEXT 9] Predicted next UID"] false in
  selectMailbox_execute "a1" "INBOX" m = Done r m'
  /\ condition r = OK
  /\ st (sess m) <> selected
  /\ (exists mbox,
        GetMailbox (config_Mailstore (config (sess m))) "INBOX"
          = (Some mbox, None)
        /\ sess m' = set_mailbox (sess m) (Some mbox)
        /\ st (sess m) = authenticated
        /\ st (sess m') = authenticated
        /\ id (sess m') = id (sess m)
        /\ config (sess m') = config (sess m))
  /\ st (sess m') <> selected.
Proof.
  cbv zeta.
  assert (Hnot : st (sess (machine_in authenticated (exampleStore None)))
                 <> selected) by discriminate.
  split; [reflexivity|]. split; [reflexivity|]. split; [exact Hnot|]. split.
  - exact (proj1 (select_changes_only_the_mailbox GoRegexpFragment exampleFlags)
             "a1" "INBOX" (machine_in authenticated (exampleStore None))
             _ _ eq_refl eq_refl).
  - exact (proj1 (proj2 (select_changes_only_the_mailbox GoRegexpFragment
                           exampleFlags))
             0%nat (selectMailbox "a1" "INBOX")
             (machine_in authenticated (exampleStore None)) _ _
             eq_refl Hnot).
Defined.

(* ===================================================================== *)
(** ** Further properties: delimiter helpers                             *)
(* ===================================================================== *)

Lemma append_assoc (a b c : string) : (a ++ b) ++ c = a ++ (b ++ c).
Proof. induction a as [|x a IH]; simpl; [reflexivity|]. rewrite IH. reflexivity. Qed.

Lemma substring_prefix (a b : string) :
  String.substring 0 (String.length a) (a ++ b) = a.
Proof.
  induction a as [|x a IH]; simpl.
  - destruct b; reflexivity.
  - rewrite IH. reflexivity.
Qed.

Lemma substring_all (s : string) : String.substring 0 (String.length s) s = s.
Proof.
  rewrite <- (append_empty_r s) at 2. rewrite substring_prefix. reflexivity.
Qed.

Lemma length_substring (s : string) :
  forall a k : nat,
    (a + k <= String.length s)%nat ->
    String.length (String.substring a k s) = k.
Proof.
  induction s as [|c s IH]; intros a k H; simpl in H.
  - assert (a = O) by lia. assert (k = O) by lia. subst. reflexivity.
  - destruct a as [|a].
    + destruct k as [|k]; [reflexivity|]. simpl. rewrite IH by lia.
      reflexivity.
    + simpl. apply IH. lia.
Qed.

Lemma index_at_first (c : ascii) (s : string) : index_at (String c s) 0 = Val c.
Proof.
  unfold index_at. assert (H := len_nonneg s). rewrite len_String.
  replace (1 + len s <=? 0) with false by (symmetry; apply Z.leb_gt; lia).
  reflexivity.
Qed.

(** [removeDelimiters] on a string with first character [c0] and last
    character [c1]. *)
Lemma removeDelimiters_cases (c0 c1 : ascii) (s : string) :
  last_char (String c0 s) = Some c1 ->
  removeDelimiters (String c0 s) =
  let start := if Ascii.eqb c0 pathDelimiter then 1 else 0 in
  let end_ := if Ascii.eqb c1 pathDelimiter
              then len (String c0 s) - 1 else len (String c0 s) in
  if 0 <? end_ - start
  then Val (String.substring (Z.to_nat start) (Z.to_nat (end_ - start))
                             (String c0 s))
  else Val EmptyString.
Proof.
  intros Hl. unfold removeDelimiters.
  rewrite index_at_first. cbn [rbind]. rewrite index_at_last, Hl.
  cbn [rbind]. cbv zeta.
  assert (Hn := len_nonneg s). rewrite len_String.
  destruct (Ascii.eqb c0 pathDelimiter), (Ascii.eqb c1 pathDelimiter);
    match goal with
    | |- (if ?b then _ else _) = _ =>
        destruct b eqn:E; [apply Z.ltb_lt in E; apply slice_ok;
                           rewrite ?len_String; lia | reflexivity]
    end.
Qed.

(** X1. Whenever [addTrailingDelimiter] returns, the result ends in the
    delimiter and is the input itself or the input followed by one
    delimiter; it is the input itself exactly when the input already ends
    in the delimiter. *)
Theorem addTrailingDelimiter_postcondition :
  forall s r : string,
    addTrailingDelimiter s = Val r ->
    last_char r = Some pathDelimiter
    /\ (r = s \/ r = s ++ pathDelimiterString)
    /\ (r = s <-> last_char s = Some pathDelimiter).
Proof.
  intros s r. rewrite addTrailingDelimiter_cases.
  destruct (last_char s) as [c|] eqn:Hc; [|discriminate].
  destruct (Ascii.eqb c pathDelimiter) eqn:E; intros [= <-].
  - apply Ascii.eqb_eq in E. subst c. repeat split; auto.
  - split; [apply last_char_append|]. split; [right; reflexivity|].
    apply Ascii.eqb_neq in E. split.
    + intros H. exfalso. apply (f_equal String.length) in H.
      assert (Hl := len_append s pathDelimiterString). unfold len in Hl.
      rewrite H in Hl. simpl in Hl. lia.
    + intros H. congruence.
Qed.

Lemma addTrailingDelimiter_postcondition_witness :
  addTrailingDelimiter "INBOX" = Val "INBOX/"
  /\ last_char "INBOX/" = Some pathDelimiter
  /\ ("INBOX/" = "INBOX" \/ "INBOX/" = "INBOX" ++ pathDelimiterString)
  /\ ("INBOX/" = "INBOX" <-> last_char "INBOX" = Some pathDelimiter).
Proof.
  split; [reflexivity|].
  exact (addTrailingDelimiter_postcondition "INBOX" "INBOX/" eq_refl).
Defined.

(** X2. A string wrapped in one leading and one trailing delimiter is
    returned unwrapped by [removeDelimiters], whatever the string: exactly
    one delimiter is taken from each end. *)
Theorem removeDelimiters_unwraps :
  forall s : string,
    removeDelimiters (pathDelimiterString ++ s ++ pathDelimiterString) = Val s.
Proof.
  intros s.
  change (pathDelimiterString ++ s ++ pathDelimiterString)
    with (String pathDelimiter (s ++ pathDelimiterString)).
  rewrite (removeDelimiters_cases _ pathDelimiter).
  2:{ change (String pathDelimiter (s ++ pathDelimiterString))
        with (String pathDelimiter s ++ pathDelimiterString).
      apply last_char_append. }
  cbv zeta. rewrite Ascii.eqb_refl, len_String, len_append.
  change (len pathDelimiterString) with 1.
  assert (Hn := len_nonneg s).
  destruct (0 <? 1 + (len s + 1) - 1 - 1) eqn:E.
  - replace (Z.to_nat (1 + (len s + 1) - 1 - 1)) with (String.length s)
      by (unfold len; lia).
    change (Z.to_nat 1) with 1%nat. cbn [String.substring].
    destruct (String.length s) eqn:El.
    + apply Z.ltb_lt in E. unfold len in E. lia.
    + rewrite <- El. rewrite substring_prefix. reflexivity.
  - apply Z.ltb_ge in E. destruct s as [|c s]; [reflexivity|].
    rewrite len_String in E. assert (Hn' := len_nonneg s). lia.
Qed.

(** X3. [removeDelimiters] leaves a string that neither begins nor ends
    with the delimiter as it is. *)
Theorem removeDelimiters_canonical :
  forall (c : ascii) (s : string),
    c <> pathDelimiter ->
    last_char (String c s) <> Some pathDelimiter ->
    removeDelimiters (String c s) = Val (String c s).
Proof.
  intros c s Hc Hl.
  destruct (last_char_nonempty (String c s)) as [d Hd]; [discriminate|].
  rewrite (removeDelimiters_cases _ d) by exact Hd. cbv zeta.
  apply Ascii.eqb_neq in Hc. rewrite Hc.
  assert (Hd' : Ascii.eqb d pathDelimiter = false).
  { apply Ascii.eqb_neq. intros ->. exact (Hl Hd). }
  rewrite Hd'. assert (Hn := len_nonneg s). rewrite len_String.
  replace (0 <? 1 + len s - 0) with true by (symmetry; apply Z.ltb_lt; lia).
  replace (Z.to_nat (1 + len s - 0)) with (String.length (String c s))
    by (unfold len; simpl String.length; lia).
  change (Z.to_nat 0) with O. rewrite substring_all. reflexivity.
Qed.

Lemma removeDelimiters_canonical_witness :
  "W"%char <> pathDelimiter
  /\ last_char "Work/reports" <> Some pathDelimiter
  /\ removeDelimiters "Work/reports" = Val "Work/reports".
Proof.
  assert (H1 : "W"%char <> pathDelimiter) by discriminate.
  assert (H2 : last_char "Work/reports" <> Some pathDelimiter) by discriminate.
  split; [exact H1|]. split; [exact H2|].
  exact (removeDelimiters_canonical "W" "ork/reports" H1 H2).
Defined.

(** X4. [removeDelimiters] panics on the empty string and on no other; on
    a string with at least one character it returns a string, and the
    string returned is empty exactly for the inputs "/" and "//". *)
Theorem removeDelimiters_panics_iff_empty :
  forall s : string,
    (removeDelimiters s = Panic <-> s = EmptyString)
    /\ (removeDelimiters s = Val EmptyString <->
        s = pathDelimiterString
        \/ s = pathDelimiterString ++ pathDelimiterString).
Proof.
  intros s. destruct s as [|c s].
  { split; split; try reflexivity; try discriminate.
    intros [H | H]; discriminate. }
  destruct (last_char_nonempty (String c s)) as [d Hd]; [discriminate|].
  rewrite (removeDelimiters_cases _ d) by exact Hd. cbv zeta.
  assert (Hn := len_nonneg s). rewrite len_String.
  assert (nonempty : forall a k : nat,
             (0 < k)%nat -> (a + k <= String.length (String c s))%nat ->
             Val (String.substring a k (String c s)) = Val EmptyString ->
             False).
  { intros a k Hk Hak E.
    pose proof (length_substring (String c s) a k Hak) as L.
    assert (E' : String.substring a k (String c s) = EmptyString)
      by congruence.
    rewrite E' in L. simpl in L. lia. }
  assert (Hlen : Z.of_nat (String.length (String c s)) = 1 + len s)
    by (unfold len; simpl String.length; lia).
  split.
  - split; [|discriminate].
    destruct (Ascii.eqb c pathDelimiter), (Ascii.eqb d pathDelimiter);
      match goal with
      | |- (if ?b then _ else _) = _ -> _ => destruct b; discriminate
      end.
  - destruct (Ascii.eqb c pathDelimiter) eqn:Ec,
             (Ascii.eqb d pathDelimiter) eqn:Ed.
    + apply Ascii.eqb_eq in Ec, Ed. subst c d.
      destruct (0 <? 1 + len s - 1 - 1) eqn:E.
      * apply Z.ltb_lt in E. split.
        -- intros H. exfalso. revert H. apply nonempty; lia.
        -- intros [[= H] | [= H]]; subst s; unfold len in E; simpl in E; lia.
      * apply Z.ltb_ge in E. split; [intros _|reflexivity].
        destruct s as [|e s]; [left; reflexivity|].
        destruct s as [|f s].
        -- injection Hd as ->. right. reflexivity.
        -- rewrite !len_String in E. assert (Hn' := len_nonneg s). lia.
    + apply Ascii.eqb_eq in Ec. apply Ascii.eqb_neq in Ed. subst c.
      destruct s as [|e s]; [injection Hd as <-; congruence|].
      rewrite len_String in *. assert (Hn' := len_nonneg s).
      replace (0 <? 1 + (1 + len s) - 1) with true
        by (symmetry; apply Z.ltb_lt; lia).
      split.
      * intros H. exfalso. revert H. apply nonempty; lia.
      * intros [[= H] | [= H1 H2]]; subst.
        simpl in Hd. congruence.
    + apply Ascii.eqb_neq in Ec.
      destruct (0 <? 1 + len s - 1 - 0) eqn:E.
      * apply Z.ltb_lt in E. split.
        -- intros H. exfalso. revert H. apply nonempty; lia.
        -- intros [[= H1 H2] | [= H1 H2]]; congruence.
      * split; [|reflexivity || (intros [[= H1 H2] | [= H1 H2]]; congruence)].
        intros _. apply Z.ltb_ge in E.
        destruct s as [|e s];
          [injection Hd as <-; apply Ascii.eqb_eq in Ed; congruence|].
        rewrite len_String in E. assert (Hn' := len_nonneg s). lia.
    + apply Ascii.eqb_neq in Ec.
      replace (0 <? 1 + len s - 0) with true
        by (symmetry; apply Z.ltb_lt; lia).
      split.
      * intros H. exfalso. revert H. apply nonempty; lia.
      * intros [[= H1 H2] | [= H1 H2]]; congruence.
Qed.

(* ===================================================================== *)
(** ** Further properties: the commands and the session                  *)
(* ===================================================================== *)

(** X5. SELECT always completes: the dereference of the selected mailbox in
    [addMailboxInfo], which panics when no mailbox is selected, is only
    reached after the mailbox was recorded. It makes at most five Mailstore
    calls, and its answer carries either five untagged lines, with status
    OK, the close flag unset and exactly five calls made, or no untagged
    line at all with a status other than OK: an error never leaves part of
    the status lines in the answer. *)
Theorem select_always_completes :
  forall (t name : string) (m : machine),
    (forall resp, mailbox (sess m) = None -> addMailboxInfo resp m = Panicked)
    /\ exists (r : response) (m' : machine) (trace : list call),
         selectMailbox_execute t name m = Done r m'
         /\ calls m' = (calls m ++ trace)%list
         /\ (List.length trace <= 5)%nat
         /\ ((condition r = OK /\ List.length (untagged r) = 5%nat
              /\ closeConnection r = false /\ List.length trace = 5%nat)
             \/ (condition r <> OK /\ untagged r = [])).
Proof.
  intros t name m. split.
  { intros resp H. unfold addMailboxInfo, mailbox_Id, bind, get_sess.
    rewrite H. reflexivity. }
  unfold selectMailbox_execute, addMailboxInfo. run_machine.
  destruct (state_eqb (st (sess m)) authenticated); cbn [negb].
  2:{ eexists _, _, []. rewrite app_nil_r. split; [reflexivity|].
      cbn. repeat split; try lia. right. split; [discriminate|reflexivity]. }
  destruct (GetMailbox (config_Mailstore (config (sess m))) name)
    as [[mbox|] [err|]]; cbn;
    try (eexists _, _, [_]; split; [reflexivity|]; cbn;
         repeat split; try lia; right; split; [discriminate|reflexivity]).
  destruct (FirstUnseen (config_Mailstore (config (sess m))) (Id mbox))
    as [n1 [e1|]]; cbn.
  { eexists _, _, [_; _]. split; [reflexivity|]. cbn.
    rewrite <- !app_assoc. repeat split; try lia.
    right. split; [discriminate|reflexivity]. }
  destruct (TotalMessages (config_Mailstore (config (sess m))) (Id mbox))
    as [n2 [e2|]]; cbn.
  { eexists _, _, [_; _; _]. split; [reflexivity|]. cbn.
    rewrite <- !app_assoc. repeat split; try lia.
    right. split; [discriminate|reflexivity]. }
  destruct (RecentMessages (config_Mailstore (config (sess m))) (Id mbox))
    as [n3 [e3|]]; cbn.
  { eexists _, _, [_; _; _; _]. split; [reflexivity|]. cbn.
    rewrite <- !app_assoc. repeat split; try lia.
    right. split; [discriminate|reflexivity]. }
  destruct (NextUid (config_Mailstore (config (sess m))) (Id mbox))
    as [n4 [e4|]]; cbn.
  { eexists _, _, [_; _; _; _; _]. split; [reflexivity|]. cbn.
    rewrite <- !app_assoc. repeat split; try lia.
    right. split; [discriminate|reflexivity]. }
  eexists _, _, [_; _; _; _; _]. split; [reflexivity|]. cbn.
  rewrite <- !app_assoc. repeat split; try lia.
  left. repeat split.
Qed.

Lemma select_always_completes_witness :
  let m := machine_in authenticated (exampleStore None) in
  mailbox (sess m) = None
  /\ addMailboxInfo (ok "a1" "SELECT completed") m = Panicked
  /\ exists (r : response) (m' : machine) (trace : list call),
       selectMailbox_execute "a1" "INBOX" m = Done r m'
       /\ calls m' = (calls m ++ trace)%list
       /\ (List.length trace <= 5)%nat
       /\ ((condition r = OK /\ List.length (untagged r) = 5%nat
            /\ closeConnection r = false /\ List.length trace = 5%nat)
           \/ (condition r <> OK /\ untagged r = [])).
Proof.
  cbv zeta. split; [reflexivity|].
  refine (let H := select_always_completes "a1" "INBOX"
                     (machine_in authenticated (exampleStore None)) in
          conj (proj1 H (ok "a1" "SELECT completed") eq_refl) (proj2 H)).
Defined.

(** X6. A SELECT that does not find its mailbox (absent, or the lookup
    fails) leaves the whole session as it was, so a mailbox selected
    earlier stays selected; it answers NO after exactly one Mailstore
    call. *)
Theorem failed_select_keeps_selection :
  forall (t name : string) (m : machine),
    st (sess m) = authenticated ->
    (forall mbox, GetMailbox (config_Mailstore (config (sess m))) name
                  <> (Some mbox, None)) ->
    exists (r : response) (m' : machine),
      selectMailbox_execute t name m = Done r m'
      /\ sess m' = sess m
      /\ condition r = NO
      /\ calls m' = (calls m ++ [CallGetMailbox name])%list.
Proof.
  intros t name m Hst Hno. unfold selectMailbox_execute. run_machine.
  rewrite Hst. cbn.
  destruct (GetMailbox (config_Mailstore (config (sess m))) name)
    as [[mbox|] [err|]] eqn:E; cbn;
    try (eexists _, _; repeat split; reflexivity).
  exfalso. exact (Hno mbox eq_refl).
Qed.

Lemma failed_select_keeps_selection_witness :
  let m := machine_selected (exampleStore None) mbInbox in
  st (sess m) = authenticated
  /\ (forall mbox, GetMailbox (config_Mailstore (config (sess m))) "Trash"
                   <> (Some mbox, None))
  /\ exists (r : response) (m' : machine),
       selectMailbox_execute "a1" "Trash" m = Done r m'
       /\ sess m' = sess m
       /\ condition r = NO
       /\ calls m' = (calls m ++ [CallGetMailbox "Trash"])%list.
Proof.
  cbv zeta.
  assert (Hno : forall mbox,
             GetMailbox (config_Mailstore
                           (config (sess (machine_selected (exampleStore None)
                                                           mbInbox))))
                        "Trash" <> (Some mbox, None)) by (intros; discriminate).
  split; [reflexivity|]. split; [exact Hno|].
  exact (failed_select_keeps_selection "a1" "Trash"
           (machine_selected (exampleStore None) mbInbox) eq_refl Hno).
Defined.

Lemma fold_extra (f : Mailbox -> string) (l : list Mailbox) :
  forall res : response,
    fold_left (fun res mbox => extra res (f mbox)) l res =
    mkResponse (tag res) (condition res) (message res)
               (untagged res ++ map f l) (closeConnection res).
Proof.
  induction l as [|x l IH]; intros res; simpl.
  - rewrite app_nil_r. destruct res; reflexivity.
  - rewrite IH. cbn. rewrite <- app_assoc. reflexivity.
Qed.

Section CommandShapes.

Context {RL : RegexpLib} {FV : FlagVocabulary}.

(** The ways in which LIST completes. *)
Lemma list_execute_inv (fuel : nat) (t reference mboxPattern : string)
    (m m' : machine) (r : response) :
  list_execute fuel t reference mboxPattern m = Done r m' ->
  (st (sess m) <> authenticated
   /\ r = bad t "LIST not authenticated"
   /\ m' = after_log m "LIST not authenticated")
  \/ (st (sess m) = authenticated /\ mboxPattern = EmptyString
      /\ condition r = OK /\ closeConnection r = false /\ m' = m)
  \/ (st (sess m) = authenticated /\ mboxPattern <> EmptyString
      /\ exists (ref' pat' : string) (mboxes : list Mailbox)
                (oerr : option error) (m1 : machine),
           addTrailingDelimiter reference = Val ref'
           /\ removeDelimiters mboxPattern = Val pat'
           /\ session_list fuel ref' pat' m = Done (mboxes, oerr) m1
           /\ match oerr with
              | Some err =>
                  r = shouldClose (no t ("LIST " ++ err))
                  /\ m' = after_log m1 ("LIST " ++ err)
              | None =>
                  m' = m1
                  /\ r = match mboxes with
                         | [] => no t "LIST no results"
                         | _ => mkResponse t OK "LIST completed"
                                           (list_lines mboxes) false
                         end
              end).
Proof.
  unfold list_execute. unfold bind at 1. unfold get_sess.
  destruct (state_eqb (st (sess m)) authenticated) eqn:Est; cbn [negb].
  2:{ run_machine. intros [= <- <-]. left. apply state_eqb_neq in Est.
      repeat split. exact Est. }
  apply state_eqb_eq in Est.
  destruct (String.eqb mboxPattern EmptyString) eqn:Ep.
  { unfold ret. intros [= <- <-]. right. left. apply String.eqb_eq in Ep.
    repeat split; assumption. }
  apply String.eqb_neq in Ep.
  unfold bind at 1. unfold lift at 1.
  destruct (addTrailingDelimiter reference) as [ref'|]; [|discriminate].
  unfold bind at 1. unfold lift at 1.
  destruct (removeDelimiters mboxPattern) as [pat'|]; [|discriminate].
  unfold bind at 1.
  destruct (session_list fuel ref' pat' m) as [[mboxes oerr] m1| |] eqn:El;
    try discriminate.
  intros H. right. right. split; [exact Est|]. split; [exact Ep|].
  exists ref', pat', mboxes, oerr, m1.
  split; [reflexivity|]. split; [reflexivity|]. split; [exact El|].
  destruct oerr as [err|].
  - revert H. run_machine. intros [= <- <-]. split; reflexivity.
  - destruct mboxes as [|mb rest].
    + revert H. cbn. unfold ret. intros [= <- <-]. split; reflexivity.
    + revert H. unfold len_list_is_zero. cbn [List.length].
      replace (Z.of_nat (S (List.length rest)) =? 0) with false
        by (symmetry; apply Z.eqb_neq; lia).
      unfold ret. intros [= <- <-]. split; [reflexivity|].
      rewrite fold_extra. reflexivity.
Qed.

End CommandShapes.

(** X7. No command changes the id or the configuration of the session;
    only SELECT changes the selected mailbox; and the state changes only
    through a LOGOUT or a LOGIN with the user id "test". *)
Theorem execute_frame :
  forall (RL : RegexpLib) (FV : FlagVocabulary) (fuel : nat) (c : command) (m m' : machine) (r : response),
    execute fuel c m = Done r m' ->
    id (sess m') = id (sess m)
    /\ config (sess m') = config (sess m)
    /\ (is_select c = false -> mailbox (sess m') = mailbox (sess m))
    /\ (st (sess m') <> st (sess m) ->
        is_logout c = true \/ exists t p, c = login t "test" p).
Proof.
  intros RL FV fuel c m m' r H. destruct c as
    [t | t | t userId password | t | t name | t reference mboxPattern | t cmd];
    cbn [execute] in H.
  - injection H as <- <-. repeat split. intros Hx. congruence.
  - injection H as <- <-. repeat split. intros Hx. congruence.
  - unfold login_execute in H. revert H. run_machine.
    destruct (negb (state_eqb (st (sess m)) notAuthenticated)).
    + intros [= <- <-]. cbn. repeat split. intros Hx. congruence.
    + destruct (String.eqb userId "test") eqn:Eu; intros [= <- <-]; cbn;
        repeat split; intros Hx; [|congruence].
      right. apply String.eqb_eq in Eu. subst userId. eauto.
  - unfold logout_execute in H. revert H. run_machine.
    intros [= <- <-]. cbn. repeat split. intros _. left. reflexivity.
  - apply selectMailbox_execute_frame in H.
    destruct H as [Hst [Hid [Hcfg _]]]. repeat split; try assumption.
    + discriminate.
    + intros Hx. congruence.
  - apply list_execute_result in H. destruct H as [Hs _]. rewrite Hs.
    repeat split. intros Hx. congruence.
  - unfold unknown_execute in H. revert H. run_machine.
    intros [= <- <-]. cbn. repeat split. intros Hx. congruence.
Qed.

Lemma execute_frame_witness :
  let m := machine_in notAuthenticated (exampleStore None) in
  let m' := machine_in authenticated (exampleStore None) in
  execute (RL := GoRegexpFragment) (FV := exampleFlags)
          0 (login "a1" "test" "pw") m = Done (ok "a1" "LOGIN completed") m'
  /\ id (sess m') = id (sess m)
  /\ config (sess m') = config (sess m)
  /\ (is_select (login "a1" "test" "pw") = false ->
      mailbox (sess m') = mailbox (sess m))
  /\ (st (sess m') <> st (sess m) ->
      is_logout (login "a1" "test" "pw") = true
      \/ exists t p, login "a1" "test" "pw" = login t "test" p).
Proof.
  cbv zeta. split; [reflexivity|].
  exact (execute_frame GoRegexpFragment exampleFlags
           0%nat (login "a1" "test" "pw")
           (machine_in notAuthenticated (exampleStore None))
           (machine_in authenticated (exampleStore None))
           (ok "a1" "LOGIN completed") eq_refl).
Defined.

(** X8. A session that is not Authenticated never reaches the Mailstore:
    every command completes, makes no Mailstore call and leaves the
    selected mailbox as it was. *)
Theorem unauthenticated_never_calls_store :
  forall (RL : RegexpLib) (FV : FlagVocabulary) (fuel : nat) (c : command) (m : machine),
    st (sess m) <> authenticated ->
    exists (r : response) (m' : machine),
      execute fuel c m = Done r m'
      /\ calls m' = calls m
      /\ mailbox (sess m') = mailbox (sess m).
Proof.
  intros RL FV fuel c m Hst. apply state_eqb_neq in Hst.
  destruct c as
    [t | t | t userId password | t | t name | t reference mboxPattern | t cmd];
    cbn [execute].
  - eexists _, _. repeat split.
  - eexists _, _. repeat split.
  - unfold login_execute. run_machine.
    destruct (negb (state_eqb (st (sess m)) notAuthenticated));
      [eexists _, _; repeat split|].
    destruct (String.eqb userId "test"); eexists _, _; repeat split.
  - unfold logout_execute. run_machine. eexists _, _. repeat split.
  - unfold selectMailbox_execute. run_machine. rewrite Hst. cbn.
    eexists _, _. repeat split.
  - unfold list_execute. run_machine. rewrite Hst. cbn.
    eexists _, _. repeat split.
  - unfold unknown_execute. run_machine. eexists _, _. repeat split.
Qed.

Lemma unauthenticated_never_calls_store_witness :
  let m := machine_in notAuthenticated (exampleStore None) in
  st (sess m) <> authenticated
  /\ exists (r : response) (m' : machine),
       execute (RL := GoRegexpFragment) (FV := exampleFlags)
               3 (list_command "a1" "/" "*") m = Done r m'
       /\ calls m' = calls m
       /\ mailbox (sess m') = mailbox (sess m).
Proof.
  cbv zeta.
  assert (Hst : st (sess (machine_in notAuthenticated (exampleStore None)))
                <> authenticated) by discriminate.
  split; [exact Hst|].
  exact (unauthenticated_never_calls_store GoRegexpFragment exampleFlags
           3%nat (list_command "a1" "/" "*")
           (machine_in notAuthenticated (exampleStore None)) Hst).
Defined.

(** X9. The close flag is set only by LOGOUT and by a SELECT or LIST that
    answers NO without any untagged line; and an answer BAD never sets it,
    carries no untagged line, and comes with no Mailstore call and no
    change to the session. *)
Theorem close_flag_origin :
  forall (RL : RegexpLib) (FV : FlagVocabulary) (fuel : nat) (c : command) (m m' : machine) (r : response),
    execute fuel c m = Done r m' ->
    (closeConnection r = true ->
     is_logout c = true \/ (condition r = NO /\ untagged r = []))
    /\ (condition r = BAD ->
        closeConnection r = false /\ untagged r = []
        /\ calls m' = calls m /\ sess m' = sess m).
Proof.
  intros RL FV fuel c m m' r H. destruct c as
    [t | t | t userId password | t | t name | t reference mboxPattern | t cmd];
    cbn [execute] in H.
  - injection H as <- <-. split; intros; discriminate.
  - injection H as <- <-. split; intros; discriminate.
  - unfold login_execute in H. revert H. run_machine.
    destruct (negb (state_eqb (st (sess m)) notAuthenticated)).
    + intros [= <- <-]. split; [intros; discriminate|]. intros _.
      repeat split.
    + destruct (String.eqb userId "test"); intros [= <- <-];
        split; intros; discriminate.
  - unfold logout_execute in H. revert H. run_machine.
    intros [= <- <-]. split; [intros _; left; reflexivity|].
    intros; discriminate.
  - revert H. unfold selectMailbox_execute, addMailboxInfo. run_machine.
    destruct (state_eqb (st (sess m)) authenticated); cbn [negb].
    2:{ intros [= <- <-]. split; [intros; discriminate|]. intros _.
        repeat split. }
    destruct (GetMailbox (config_Mailstore (config (sess m))) name)
      as [[mbox|] [err|]]; cbn;
      try (intros [= <- <-]; split;
           [intros _; right; split; reflexivity | intros; discriminate]);
      try (intros [= <- <-]; split; intros; discriminate).
    destruct (FirstUnseen (config_Mailstore (config (sess m))) (Id mbox))
      as [n1 [e1|]]; cbn;
      try (intros [= <- <-]; split;
           [intros _; right; split; reflexivity | intros; discriminate]).
    destruct (TotalMessages (config_Mailstore (config (sess m))) (Id mbox))
      as [n2 [e2|]]; cbn;
      try (intros [= <- <-]; split;
           [intros _; right; split; reflexivity | intros; discriminate]).
    destruct (RecentMessages (config_Mailstore (config (sess m))) (Id mbox))
      as [n3 [e3|]]; cbn;
      try (intros [= <- <-]; split;
           [intros _; right; split; reflexivity | intros; discriminate]).
    destruct (NextUid (config_Mailstore (config (sess m))) (Id mbox))
      as [n4 [e4|]]; cbn;
      try (intros [= <- <-]; split;
           [intros _; right; split; reflexivity | intros; discriminate]).
    intros [= <- <-]. split; intros; discriminate.
  - apply list_execute_inv in H.
    destruct H as [[_ [-> ->]] | [[_ [_ [Hok [Hcl ->]]]] | [_ [_ H]]]].
    + split; [intros; discriminate|]. intros _. repeat split.
    + split; [congruence|]. intros Hb. congruence.
    + destruct H as [ref' [pat' [mboxes [oerr [m1 [_ [_ [_ H]]]]]]]].
      destruct oerr as [err|].
      * destruct H as [-> ->].
        split; [intros _; right; split; reflexivity | intros; discriminate].
      * destruct H as [-> ->].
        destruct mboxes; split; intros; discriminate.
  - unfold unknown_execute in H. revert H. run_machine.
    intros [= <- <-]. split; [intros; discriminate|]. intros _.
    repeat split.
Qed.

Lemma close_flag_origin_witness :
  let m := machine_in authenticated (exampleStore (Some "/")) in
  let r := mkResponse "a1" NO "LIST disk failure" [] true in
  let m' := mkMachine (sess m) [CallGetMailboxes "/"]
              ["listMailboxes /"; "IMAP (1) LIST disk failure"] in
  execute (RL := GoRegexpFragment) (FV := exampleFlags)
          1 (list_command "a1" "/" "%") m = Done r m'
  /\ closeConnection r = true
  /\ (is_logout (list_command "a1" "/" "%") = true
      \/ (condition r = NO /\ untagged r = [])).
Proof.
  cbv zeta. split; [reflexivity|]. split; [reflexivity|].
  exact (proj1 (close_flag_origin GoRegexpFragment exampleFlags
                  1%nat (list_command "a1" "/" "%")
                  (machine_in authenticated (exampleStore (Some "/")))
                  _ _ eq_refl) eq_refl).
Defined.

(** X10. LOGOUT completes from every state with OK, the BYE line and the
    close flag, makes no Mailstore call, and resets the state to
    NotAuthenticated while keeping the selected mailbox. After it SELECT and
    LIST answer BAD without reaching the Mailstore, and a LOGIN with the
    user id "test" brings the session back to Authenticated with the
    mailbox selected before the LOGOUT still recorded. *)
Theorem logout_resets_the_protocol :
  forall (RL : RegexpLib) (FV : FlagVocabulary) (fuel : nat) (t : string)
         (m : machine),
    exists m1 : machine,
      logout_execute t m
      = Done (mkResponse t OK "LOGOUT completed"
                ["BYE IMAP4rev1 Server logging out"] true) m1
      /\ sess m1 = set_st (sess m) notAuthenticated
      /\ mailbox (sess m1) = mailbox (sess m)
      /\ calls m1 = calls m
      /\ (forall t2 name, exists m2,
             execute fuel (selectMailbox t2 name) m1
             = Done (bad t2 "SELECT not authenticated") m2
             /\ calls m2 = calls m)
      /\ (forall t2 reference mboxPattern, exists m2,
             execute fuel (list_command t2 reference mboxPattern) m1
             = Done (bad t2 "LIST not authenticated") m2
             /\ calls m2 = calls m)
      /\ (forall t2 password,
             execute fuel (login t2 "test" password) m1
             = Done (ok t2 "LOGIN completed")
                    (mkMachine (set_st (sess m) authenticated)
                               (calls m) (logged m))).
Proof.
  intros RL FV fuel t m. eexists. split; [reflexivity|].
  cbn [sess calls logged]. repeat split.
  - intros t2 name. eexists. split; reflexivity.
  - intros t2 reference mboxPattern. eexists. split; reflexivity.
Qed.

Lemma lines_for_list_lines {FV : FlagVocabulary} (mboxes : list Mailbox) :
  lines_for (list_lines mboxes) mboxes.
Proof.
  induction mboxes as [|mb rest IH]; [constructor|].
  constructor; [|exact IH].
  exists (flag_tokens mb). split; [apply Permutation_refl | reflexivity].
Qed.

(** X11. When the resolver returns mailboxes without error, LIST adds
    nothing to the machine and answers NO "LIST no results" if there is
    none, and otherwise OK with exactly one untagged line per mailbox, in
    the order of the resolver, each made of the flag tokens of its mailbox,
    joined by commas in some order, and of its path. *)
Theorem list_answers_one_line_per_mailbox :
  forall (RL : RegexpLib) (FV : FlagVocabulary) (fuel : nat)
         (t reference mboxPattern ref' pat' : string)
         (mboxes : list Mailbox) (m m1 : machine),
    st (sess m) = authenticated ->
    mboxPattern <> EmptyString ->
    addTrailingDelimiter reference = Val ref' ->
    removeDelimiters mboxPattern = Val pat' ->
    session_list fuel ref' pat' m = Done (mboxes, None) m1 ->
    exists lines : list string,
      list_execute fuel t reference mboxPattern m
      = Done (match mboxes with
              | [] => no t "LIST no results"
              | _ => mkResponse t OK "LIST completed" lines false
              end) m1
      /\ lines_for lines mboxes.
Proof.
  intros RL FV fuel t reference mboxPattern ref' pat' mboxes m m1
         Hst Hp Hadd Hrem Hlist.
  exists (list_lines mboxes). split; [|apply lines_for_list_lines].
  unfold list_execute. unfold bind at 1. unfold get_sess. rewrite Hst.
  cbn [state_eqb negb]. apply String.eqb_neq in Hp. rewrite Hp.
  unfold bind at 1. rewrite Hadd. cbn [lift].
  unfold bind at 1. rewrite Hrem. cbn [lift].
  unfold bind at 1. rewrite Hlist.
  destruct mboxes as [|mb rest]; [reflexivity|].
  unfold len_list_is_zero. cbn [List.length].
  replace (Z.of_nat (S (List.length rest)) =? 0) with false
    by (symmetry; apply Z.eqb_neq; lia).
  unfold ret. rewrite fold_extra. reflexivity.
Qed.

Lemma list_answers_one_line_per_mailbox_witness :
  let m := machine_in authenticated (exampleStore None) in
  st (sess m) = authenticated
  /\ "/Work/%" <> EmptyString
  /\ addTrailingDelimiter "/" = Val "/"
  /\ removeDelimiters "/Work/%" = Val "Work/%"
  /\ session_list (RL := GoRegexpFragment) 1 "/" "Work/%" m
     = Done ([mbReports; mbDrafts], None) (after_query m "/Work")
  /\ exists lines : list string,
       list_execute (RL := GoRegexpFragment) (FV := exampleFlags)
                    1 "a1" "/" "/Work/%" m
       = Done (mkResponse "a1" OK "LIST completed" lines false)
              (after_query m "/Work")
       /\ lines_for (FV := exampleFlags) lines [mbReports; mbDrafts].
Proof.
  cbv zeta.
  assert (Hp : "/Work/%" <> EmptyString) by discriminate.
  split; [reflexivity|]. split; [exact Hp|]. do 3 (split; [reflexivity|]).
  exact (list_answers_one_line_per_mailbox GoRegexpFragment exampleFlags
           1%nat "a1" "/" "/Work/%" "/" "Work/%" [mbReports; mbDrafts]
           (machine_in authenticated (exampleStore None)) _
           eq_refl Hp eq_refl eq_refl eq_refl).
Defined.

(* ===================================================================== *)
(** ** Further properties: panics of LIST                                *)
(* ===================================================================== *)

Section PanicFacts.

Context {RL : RegexpLib}.

Lemma listMailboxes_loop_no_panic
    (self : string -> M (list Mailbox * option error)) (path : string)
    (mboxRe : option Regexp) (recursive : bool) :
  path <> EmptyString ->
  (forall p m, p <> EmptyString -> self p m <> Panicked) ->
  forall (current ret_ : list Mailbox) (m : machine),
    listMailboxes_loop self path mboxRe recursive current ret_ m <> Panicked.
Proof.
  intros Hpath Hself. destruct (last_char_nonempty _ Hpath) as [c Hc].
  induction current as [|mbox rest IH]; intros ret_ m;
    cbn [listMailboxes_loop]; [discriminate|].
  destruct (match mboxRe with
            | Some re => negb (MatchString re (Name mbox))
            | None => false
            end); [apply IH|].
  destruct recursive; [|apply IH].
  unfold bind at 1. unfold lift. rewrite index_at_last, Hc. unfold bind.
  match goal with
  | |- match self ?p m with _ => _ end <> _ =>
      assert (Hp : p <> EmptyString)
        by (destruct (Ascii.eqb c pathDelimiter);
            apply append_nonempty; exact Hpath);
      specialize (Hself p m Hp);
      destruct (self p m) as [[next [err|]] m1| |]
  end; try discriminate; try congruence; apply IH.
Qed.

(** The directory walk does not panic on a non-empty path. *)
Lemma listMailboxes_no_panic (fuel : nat) :
  forall (path : string) (mboxRe : option Regexp) (recursive : bool)
         (m : machine),
    path <> EmptyString ->
    listMailboxes fuel path mboxRe recursive m <> Panicked.
Proof.
  induction fuel as [|fuel IH]; intros path mboxRe recursive m Hpath;
    cbn [listMailboxes]; [discriminate|].
  unfold bind, log_Print, mailstore_call. cbn [sess calls logged].
  destruct (GetMailboxes (config_Mailstore (config (sess m))) path)
    as [current [err|]]; [discriminate|].
  apply listMailboxes_loop_no_panic; [exact Hpath|].
  intros p m0 Hp. apply IH. exact Hp.
Qed.

Lemma session_list_no_panic (fuel : nat) (reference mboxPattern : string)
    (m : machine) :
  reference <> EmptyString -> mboxPattern <> EmptyString ->
  session_list fuel reference mboxPattern m <> Panicked.
Proof.
  intros Href Hpat. destruct (last_char_nonempty _ Hpat) as [c Hc].
  destruct (Ascii.eqb c "*" || Ascii.eqb c "%") eqn:Hw.
  - destruct (session_list_wildcard reference mboxPattern c Hc Hw)
      as [part [expr Hshape]].
    rewrite Hshape. destruct (regexp_Compile expr); [|discriminate].
    apply listMailboxes_no_panic. apply append_nonempty. exact Href.
  - apply orb_false_iff in Hw. destruct Hw as [H1 H2].
    rewrite (session_list_literal _ _ _ c) by assumption.
    apply listMailboxes_no_panic. apply append_nonempty. exact Href.
Qed.

End PanicFacts.

(** X12. LIST panics in exactly two situations, both in the Authenticated
    state with a non-empty pattern: the reference is empty, or the pattern
    is made of delimiters only, so that [removeDelimiters] returns the
    empty string for it. In every other case it does not panic, whatever
    the Mailstore answers. *)
Theorem list_panics_iff :
  forall (RL : RegexpLib) (FV : FlagVocabulary) (fuel : nat)
         (t reference mboxPattern : string) (m : machine),
    list_execute fuel t reference mboxPattern m = Panicked
    <-> st (sess m) = authenticated
        /\ mboxPattern <> EmptyString
        /\ (reference = EmptyString
            \/ removeDelimiters mboxPattern = Val EmptyString).
Proof.
  intros RL FV fuel t reference mboxPattern m.
  unfold list_execute. unfold bind at 1. unfold get_sess.
  destruct (state_eqb (st (sess m)) authenticated) eqn:Est; cbn [negb].
  2:{ apply state_eqb_neq in Est. run_machine.
      split; [discriminate | intros [H _]; contradiction]. }
  apply state_eqb_eq in Est.
  destruct (String.eqb mboxPattern EmptyString) eqn:Ep.
  { apply String.eqb_eq in Ep. unfold ret.
    split; [discriminate | intros [_ [H _]]; contradiction]. }
  apply String.eqb_neq in Ep.
  unfold bind at 1. unfold lift at 1. rewrite addTrailingDelimiter_cases.
  destruct (last_char reference) as [c|] eqn:Hc.
  2:{ split; [intros _ | reflexivity]. repeat split; try assumption.
      left. destruct reference as [|x reference]; [reflexivity|].
      destruct (last_char_nonempty (String x reference)) as [d Hd];
        [discriminate | congruence]. }
  assert (Href : reference <> EmptyString) by (intros ->; discriminate).
  set (ref' := if Ascii.eqb c pathDelimiter
               then reference else reference ++ pathDelimiterString).
  assert (Href' : ref' <> EmptyString).
  { subst ref'. destruct (Ascii.eqb c pathDelimiter);
      [exact Href | apply append_nonempty; exact Href]. }
  replace (if Ascii.eqb c pathDelimiter
           then Val reference else Val (reference ++ pathDelimiterString))
    with (Val ref') by (subst ref'; destruct (Ascii.eqb c pathDelimiter);
                        reflexivity).
  unfold bind at 1. unfold lift at 1.
  destruct (removeDelimiters mboxPattern) as [pat'|] eqn:Hrem.
  2:{ split; [intros _ | reflexivity]. exfalso.
      destruct mboxPattern as [|x p]; [congruence|].
      destruct (last_char_nonempty (String x p)) as [d Hd]; [discriminate|].
      rewrite (removeDelimiters_cases _ d) in Hrem by exact Hd.
      cbv zeta in Hrem.
      match type of Hrem with
      | (if ?b then _ else _) = _ => destruct b; discriminate
      end. }
  destruct pat' as [|y pat'].
  - split; [intros _ | reflexivity]. repeat split; try assumption.
    right. reflexivity.
  - split.
    + intros H. exfalso. revert H. unfold bind at 1.
      assert (Hnp := session_list_no_panic fuel ref' (String y pat') m Href').
      destruct (session_list fuel ref' (String y pat') m)
        as [[mboxes [err|]] m1| |].
      * run_machine. discriminate.
      * destruct (len_list_is_zero mboxes); discriminate.
      * intros _. apply Hnp; [discriminate | reflexivity].
      * discriminate.
    + intros [_ [_ [H | H]]]; [contradiction | discriminate].
Qed.

(* ===================================================================== *)
(** ** Further properties: the directory walk                            *)
(* ===================================================================== *)

Lemma extends_append (path suffix : string) : extends path (path ++ suffix).
Proof. exists suffix. reflexivity. Qed.

Lemma extends_trans (a b c : string) : extends a b -> extends b c -> extends a c.
Proof.
  intros [x ->] [y ->]. exists (x ++ y). apply append_assoc.
Qed.

Lemma extends_refl (a : string) : extends a a.
Proof. exists EmptyString. symmetry. apply append_empty_r. Qed.

Section WalkFacts.

Context {RL : RegexpLib}.

Lemma listMailboxes_loop_walk
    (self : string -> M (list Mailbox * option error)) (path : string)
    (mboxRe : option Regexp) (recursive : bool) :
  (forall p m m' r oe,
      extends path p -> self p m = Done (r, oe) m' ->
      walk_report p true m m' r oe) ->
  forall (current ret0 : list Mailbox) (m m' : machine)
         (ret_ : list Mailbox) (oerr : option error),
    listMailboxes_loop self path mboxRe recursive current ret0 m
    = Done (ret_, oerr) m' ->
    sess m' = sess m /\
    exists qs : list string,
      calls m' = (calls m ++ walk_calls qs)%list /\
      logged m' = (logged m ++ walk_log qs)%list /\
      Forall (extends path) qs /\
      (recursive = false -> qs = []) /\
      (oerr = None ->
       exists added : list Mailbox,
         ret_ = (ret0 ++ added)%list /\
         (recursive = true -> List.length qs = List.length added) /\
         Forall (fun mb =>
                   In mb current \/
                   exists p, In p qs /\
                             In mb (fst (GetMailboxes
                                           (config_Mailstore
                                              (config (sess m))) p)))
                added).
Proof.
  intros Hself. induction current as [|mbox rest IH];
    intros ret0 m m' ret_ oerr H; cbn [listMailboxes_loop] in H.
  - unfold ret in H. injection H as <- <- <-. split; [reflexivity|].
    exists []. cbn. rewrite !app_nil_r. repeat split; try constructor.
    intros _. exists []. rewrite app_nil_r. repeat split. constructor.
  - assert (weaken : forall (qs : list string) (added : list Mailbox)
                            (ms : Mailstore),
               Forall (fun mb => In mb rest \/
                         exists p, In p qs /\ In mb (fst (GetMailboxes ms p)))
                      added ->
               Forall (fun mb => In mb (mbox :: rest) \/
                         exists p, In p qs /\ In mb (fst (GetMailboxes ms p)))
                      added).
    { intros qs added ms. apply Forall_impl. intros mb [Hin | Hq];
        [left; right; exact Hin | right; exact Hq]. }
    destruct (match mboxRe with
              | Some re => negb (MatchString re (Name mbox))
              | None => false
              end).
    { destruct (IH _ _ _ _ _ H) as [Hs [qs [Hc [Hl [Hext [Hflat Hok]]]]]].
      split; [exact Hs|]. exists qs. repeat split; try assumption.
      intros Hnone. destruct (Hok Hnone) as [added [Hret [Hlen Hall]]].
      exists added. repeat split; try assumption. apply weaken. exact Hall. }
    destruct recursive.
    2:{ destruct (IH _ _ _ _ _ H) as [Hs [qs [Hc [Hl [Hext [Hflat Hok]]]]]].
        split; [exact Hs|]. exists qs. repeat split; try assumption.
        intros Hnone. destruct (Hok Hnone) as [added [Hret [Hlen Hall]]].
        exists (mbox :: added). split.
        - rewrite Hret, <- app_assoc. reflexivity.
        - split; [intros; discriminate|].
          constructor; [left; left; reflexivity | apply weaken; exact Hall]. }
    unfold bind at 1 in H. unfold lift in H.
    destruct (index_at path (len path - 1)) as [c|]; [|discriminate].
    unfold bind in H.
    match type of H with
    | match self ?p m with _ => _ end = _ =>
        assert (Hp : extends path p)
          by (destruct (Ascii.eqb c pathDelimiter); apply extends_append);
        destruct (self p m) as [[next [err|]] m1| |] eqn:Es;
          try discriminate; apply (Hself _ _ _ _ _ Hp) in Es;
          destruct Es as [Hs1 [rest_p [Hc1 [Hl1 [Hext1 Hok1]]]]];
          set (q := p) in *
    end.
    + unfold ret in H. injection H as <- <- <-. split; [exact Hs1|].
      exists (q :: rest_p). repeat split; try assumption.
      * constructor; [exact Hp|].
        eapply Forall_impl; [|exact Hext1].
        intros a Ha. exact (extends_trans _ _ _ Hp Ha).
      * intros; discriminate.
      * intros; discriminate.
    + destruct (IH _ _ _ _ _ H) as [Hs [qs [Hc [Hl [Hext [_ Hok]]]]]].
      split; [congruence|]. exists ((q :: rest_p) ++ qs)%list.
      unfold walk_calls, walk_log in *. rewrite !map_app.
      split; [rewrite Hc, Hc1, <- app_assoc; reflexivity|].
      split; [rewrite Hl, Hl1, <- app_assoc; reflexivity|].
      split.
      { apply Forall_app. split; [|exact Hext].
        constructor; [exact Hp|].
        eapply Forall_impl; [|exact Hext1].
        intros a Ha. exact (extends_trans _ _ _ Hp Ha). }
      split; [intros; discriminate|].
      intros Hnone. destruct (Hok Hnone) as [added [Hret [Hlen Hall]]].
      destruct (Hok1 eq_refl) as [Hlen1 Hall1].
      exists (mbox :: next ++ added)%list. split.
      { rewrite Hret, <- !app_assoc. reflexivity. }
      split.
      { intros _. rewrite length_app. cbn [List.length].
        rewrite length_app, Hlen1, (Hlen eq_refl). reflexivity. }
      constructor; [left; left; reflexivity|].
      apply Forall_app. split.
      * eapply Forall_impl; [|exact Hall1].
        intros mb [p [Hin Hmb]]. right. exists p. split; [|exact Hmb].
        apply in_or_app. left. exact Hin.
      * rewrite Hs1 in Hall. eapply Forall_impl; [|exact Hall].
        intros mb [Hin | [p [Hin Hmb]]]; [left; right; exact Hin|].
        right. exists p. split; [|exact Hmb]. apply in_or_app. right.
        exact Hin.
Qed.

(** Every walk comes with its report. *)
Lemma listMailboxes_walk (fuel : nat) :
  forall (path : string) (mboxRe : option Regexp) (recursive : bool)
         (m m' : machine) (ret_ : list Mailbox) (oerr : option error),
    listMailboxes fuel path mboxRe recursive m = Done (ret_, oerr) m' ->
    walk_report path recursive m m' ret_ oerr.
Proof.
  induction fuel as [|fuel IH]; intros path mboxRe recursive m m' ret_ oerr H;
    cbn [listMailboxes] in H; [discriminate|].
  unfold bind, log_Print, mailstore_call in H. cbn [sess calls logged] in H.
  destruct (GetMailboxes (config_Mailstore (config (sess m))) path)
    as [current [err|]] eqn:Eq.
  - unfold ret in H. injection H as <- <- <-. split; [reflexivity|].
    exists []. repeat split; try constructor; discriminate.
  - apply (listMailboxes_loop_walk _ _ _ _
             (fun p m0 m0' r oe _ Hrun => IH p None true m0 m0' r oe Hrun))
      in H.
    cbn [sess calls logged] in H.
    destruct H as [Hs [qs [Hc [Hl [Hext [Hflat Hok]]]]]].
    split; [exact Hs|]. exists qs. cbn [walk_calls walk_log map].
    split; [rewrite Hc, <- app_assoc; reflexivity|].
    split; [rewrite Hl, <- app_assoc; reflexivity|].
    split; [exact Hext|].
    intros Hnone. destruct (Hok Hnone) as [added [Hret [Hlen Hall]]].
    cbn [app] in Hret. subst added. split.
    + destruct recursive; [exact (Hlen eq_refl)|].
      rewrite (Hflat eq_refl). reflexivity.
    + eapply Forall_impl; [|exact Hall].
      intros mb [Hin | [p [Hin Hmb]]].
      * exists path. split; [left; reflexivity|]. rewrite Eq. exact Hin.
      * exists p. split; [right; exact Hin | exact Hmb].
Qed.

End WalkFacts.

(** X13. A directory walk that returns without error made one Mailstore
    query when it is not recursive, and one query more than the number of
    mailboxes it returns when it is recursive: every mailbox listed, leaf
    or not, costs one query of its own. Every query is logged, one line
    each. *)
Theorem walk_cost :
  forall (RL : RegexpLib) (fuel : nat) (path : string)
         (mboxRe : option Regexp) (recursive : bool) (m m' : machine)
         (ret_ : list Mailbox),
    listMailboxes fuel path mboxRe recursive m = Done (ret_, None) m' ->
    exists paths : list string,
      calls m' = (calls m ++ walk_calls paths)%list
      /\ logged m' = (logged m ++ walk_log paths)%list
      /\ List.length paths
         = if recursive then S (List.length ret_) else 1%nat.
Proof.
  intros RL fuel path mboxRe recursive m m' ret_ H.
  apply listMailboxes_walk in H.
  destruct H as [_ [rest [Hc [Hl [_ Hok]]]]].
  destruct (Hok eq_refl) as [Hlen _].
  exists (path :: rest). split; [exact Hc|]. split; [exact Hl|].
  cbn [List.length]. rewrite Hlen. destruct recursive; reflexivity.
Qed.

Lemma walk_cost_witness :
  let m := machine_in authenticated (exampleStore None) in
  let paths := ["/"; "/INBOX"; "/Work"; "/Work/reports";
                "/Work/reports/2024"; "/Work/drafts"; "/apple"] in
  let m' := mkMachine (sess m) (walk_calls paths) (walk_log paths) in
  listMailboxes (RL := GoRegexpFragment) 4 "/" None true m
  = Done ([mbInbox; mbWork; mbReports; mb2024; mbDrafts; mbApple], None) m'
  /\ exists paths : list string,
       calls m' = (calls m ++ walk_calls paths)%list
       /\ logged m' = (logged m ++ walk_log paths)%list
       /\ List.length paths = 7%nat.
Proof.
  cbv zeta.
  assert (Hrun :
    listMailboxes (RL := GoRegexpFragment) 4 "/" None true
      (machine_in authenticated (exampleStore None))
    = Done ([mbInbox; mbWork; mbReports; mb2024; mbDrafts; mbApple], None)
        (mkMachine (sess (machine_in authenticated (exampleStore None)))
           (walk_calls ["/"; "/INBOX"; "/Work"; "/Work/reports";
                        "/Work/reports/2024"; "/Work/drafts"; "/apple"])
           (walk_log ["/"; "/INBOX"; "/Work"; "/Work/reports";
                      "/Work/reports/2024"; "/Work/drafts"; "/apple"])))
    by (vm_compute; reflexivity).
  split; [exact Hrun|].
  exact (walk_cost GoRegexpFragment 4 "/" None true _ _ _ Hrun).
Defined.

(** X14. A directory walk never leaves the path it was started at: its
    first query is that path, and every later query, also when the walk
    ends in an error, is at a path that extends it. It does not touch the
    session. *)
Theorem walk_stays_below_its_path :
  forall (RL : RegexpLib) (fuel : nat) (path : string)
         (mboxRe : option Regexp) (recursive : bool) (m m' : machine)
         (ret_ : list Mailbox) (oerr : option error),
    listMailboxes fuel path mboxRe recursive m = Done (ret_, oerr) m' ->
    sess m' = sess m
    /\ exists rest : list string,
         calls m' = (calls m ++ walk_calls (path :: rest))%list
         /\ Forall (extends path) rest.
Proof.
  intros RL fuel path mboxRe recursive m m' ret_ oerr H.
  apply listMailboxes_walk in H.
  destruct H as [Hs [rest [Hc [_ [Hext _]]]]].
  split; [exact Hs|]. exists rest. split; assumption.
Qed.

Lemma walk_stays_below_its_path_witness :
  let m := machine_in authenticated (exampleStore (Some "/Work/reports")) in
  let paths := ["/Work"; "/Work/reports"] in
  let m' := mkMachine (sess m) (walk_calls paths) (walk_log paths) in
  listMailboxes (RL := GoRegexpFragment) 4 "/Work" None true m
  = Done ([], Some "disk failure") m'
  /\ sess m' = sess m
  /\ exists rest : list string,
       calls m' = (calls m ++ walk_calls ("/Work" :: rest))%list
       /\ Forall (extends "/Work") rest.
Proof.
  cbv zeta.
  assert (Hrun :
    listMailboxes (RL := GoRegexpFragment) 4 "/Work" None true
      (machine_in authenticated (exampleStore (Some "/Work/reports")))
    = Done ([], Some "disk failure")
        (mkMachine
           (sess (machine_in authenticated
                             (exampleStore (Some "/Work/reports"))))
           (walk_calls ["/Work"; "/Work/reports"])
           (walk_log ["/Work"; "/Work/reports"])))
    by (vm_compute; reflexivity).
  split; [exact Hrun|].
  exact (walk_stays_below_its_path GoRegexpFragment 4 "/Work" None true
           _ _ _ _ Hrun).
Defined.

(** X15. A directory walk invents nothing: every mailbox it returns is in
    the Mailstore's answer to one of the queries the walk made, at the
    start path or below it. *)
Theorem walk_returns_only_stored :
  forall (RL : RegexpLib) (fuel : nat) (path : string)
         (mboxRe : option Regexp) (recursive : bool) (m m' : machine)
         (ret_ : list Mailbox) (mb : Mailbox),
    listMailboxes fuel path mboxRe recursive m = Done (ret_, None) m' ->
    In mb ret_ ->
    exists p : string,
      extends path p
      /\ In (CallGetMailboxes p) (calls m')
      /\ In mb (fst (GetMailboxes (config_Mailstore (config (sess m))) p)).
Proof.
  intros RL fuel path mboxRe recursive m m' ret_ mb H Hin.
  apply listMailboxes_walk in H.
  destruct H as [_ [rest [Hc [_ [Hext Hok]]]]].
  destruct (Hok eq_refl) as [_ Hall].
  rewrite Forall_forall in Hall. destruct (Hall mb Hin) as [p [Hp Hmb]].
  exists p. split; [|split; [|exact Hmb]].
  - destruct Hp as [<- | Hp]; [apply extends_refl|].
    rewrite Forall_forall in Hext. exact (Hext p Hp).
  - rewrite Hc. apply in_or_app. right. unfold walk_calls.
    apply in_map. exact Hp.
Qed.

Lemma walk_returns_only_stored_witness :
  let m := machine_in authenticated (exampleStore None) in
  let paths := ["/"; "/INBOX"; "/Work"; "/Work/reports";
                "/Work/reports/2024"; "/Work/drafts"; "/apple"] in
  let m' := mkMachine (sess m) (walk_calls paths) (walk_log paths) in
  listMailboxes (RL := GoRegexpFragment) 4 "/" None true m
  = Done ([mbInbox; mbWork; mbReports; mb2024; mbDrafts; mbApple], None) m'
  /\ In mb2024 [mbInbox; mbWork; mbReports; mb2024; mbDrafts; mbApple]
  /\ exists p : string,
       extends "/" p
       /\ In (CallGetMailboxes p) (calls m')
       /\ In mb2024 (fst (GetMailboxes (exampleStore None) p)).
Proof.
  cbv zeta.
  assert (Hin : In mb2024
                   [mbInbox; mbWork; mbReports; mb2024; mbDrafts; mbApple])
    by (do 3 right; left; reflexivity).
  assert (Hrun :
    listMailboxes (RL := GoRegexpFragment) 4 "/" None true
      (machine_in authenticated (exampleStore None))
    = Done ([mbInbox; mbWork; mbReports; mb2024; mbDrafts; mbApple], None)
        (mkMachine (sess (machine_in authenticated (exampleStore None)))
           (walk_calls ["/"; "/INBOX"; "/Work"; "/Work/reports";
                        "/Work/reports/2024"; "/Work/drafts"; "/apple"])
           (walk_log ["/"; "/INBOX"; "/Work"; "/Work/reports";
                      "/Work/reports/2024"; "/Work/drafts"; "/apple"])))
    by (vm_compute; reflexivity).
  split; [exact Hrun|]. split; [exact Hin|].
  exact (walk_returns_only_stored GoRegexpFragment 4 "/" None true
           _ _ _ mb2024 Hrun Hin).
Defined.

Section ListQueries.

Context {RL : RegexpLib}.

(** The queries of [session.list] are a walk below its reference. *)
Lemma session_list_walk (fuel : nat) (reference mboxPattern : string)
    (m m' : machine) (ret_ : list Mailbox) (oerr : option error) :
  session_list fuel reference mboxPattern m = Done (ret_, oerr) m' ->
  exists paths : list string,
    calls m' = (calls m ++ walk_calls paths)%list
    /\ Forall (extends reference) paths.
Proof.
  intros H.
  assert (below : forall part mboxRe recursive,
             listMailboxes fuel (reference ++ part) mboxRe recursive m
             = Done (ret_, oerr) m' ->
             exists paths : list string,
               calls m' = (calls m ++ walk_calls paths)%list
               /\ Forall (extends reference) paths).
  { intros part mboxRe recursive Hrun. apply listMailboxes_walk in Hrun.
    destruct Hrun as [_ [rest [Hc [_ [Hext _]]]]].
    exists ((reference ++ part) :: rest). split; [exact Hc|].
    constructor; [apply extends_append|].
    eapply Forall_impl; [|exact Hext].
    intros a Ha. exact (extends_trans _ _ _ (extends_append _ _) Ha). }
  destruct (last_char mboxPattern) as [c|] eqn:Hc.
  - destruct (Ascii.eqb c "*" || Ascii.eqb c "%") eqn:Hw.
    + destruct (session_list_wildcard reference mboxPattern c Hc Hw)
        as [part [expr Hshape]].
      rewrite Hshape in H. destruct (regexp_Compile expr) as [re|err].
      * exact (below _ _ _ H).
      * injection H as <- <- <-. exists []. cbn. rewrite app_nil_r.
        split; [reflexivity | constructor].
    + apply orb_false_iff in Hw. destruct Hw as [H1 H2].
      rewrite (session_list_literal _ _ _ c) in H by assumption.
      exact (below _ _ _ H).
  - unfold session_list, bind, lift in H. rewrite index_at_last, Hc in H.
    discriminate.
Qed.

End ListQueries.

(** X16. The Mailstore calls of a LIST command are directory queries only,
    and every one of them is at a path that extends the reference given in
    the command: LIST never looks outside its reference, and it does not
    touch the session. *)
Theorem list_queries_below_reference :
  forall (RL : RegexpLib) (FV : FlagVocabulary) (fuel : nat)
         (t reference mboxPattern : string) (m m' : machine) (r : response),
    list_execute fuel t reference mboxPattern m = Done r m' ->
    sess m' = sess m
    /\ exists paths : list string,
         calls m' = (calls m ++ walk_calls paths)%list
         /\ Forall (extends reference) paths.
Proof.
  intros RL FV fuel t reference mboxPattern m m' r H.
  split; [exact (proj1 (list_execute_result _ _ _ _ _ _ _ H))|].
  apply list_execute_inv in H.
  destruct H as [[_ [_ ->]] | [[_ [_ [_ [_ ->]]]] | [_ [_ H]]]].
  - exists []. cbn. rewrite app_nil_r. split; [reflexivity | constructor].
  - exists []. cbn. rewrite app_nil_r. split; [reflexivity | constructor].
  - destruct H as [ref' [pat' [mboxes [oerr [m1 [Hadd [_ [Hrun H]]]]]]]].
    apply session_list_walk in Hrun. destruct Hrun as [paths [Hc Hext]].
    assert (Href : extends reference ref').
    { rewrite addTrailingDelimiter_cases in Hadd.
      destruct (last_char reference) as [c|]; [|discriminate].
      destruct (Ascii.eqb c pathDelimiter); injection Hadd as <-;
        [apply extends_refl | apply extends_append]. }
    exists paths. split.
    + destruct oerr as [err|]; destruct H as [H1 H2]; subst; exact Hc.
    + eapply Forall_impl; [|exact Hext].
      intros a Ha. exact (extends_trans _ _ _ Href Ha).
Qed.

Lemma list_queries_below_reference_witness :
  let m := machine_in authenticated (exampleStore None) in
  let paths := ["/Work"; "/Work/reports"; "/Work/reports/2024";
                "/Work/drafts"] in
  let m' := mkMachine (sess m) (walk_calls paths) (walk_log paths) in
  let r := mkResponse "a1" OK "LIST completed"
             (list_lines (FV := exampleFlags)
                         [mbReports; mb2024; mbDrafts]) false in
  list_execute (RL := GoRegexpFragment) (FV := exampleFlags)
               4 "a1" "/" "Work/*" m = Done r m'
  /\ sess m' = sess m
  /\ exists paths : list string,
       calls m' = (calls m ++ walk_calls paths)%list
       /\ Forall (extends "/") paths.
Proof.
  cbv zeta.
  assert (Hrun :
    list_execute (RL := GoRegexpFragment) (FV := exampleFlags)
                 4 "a1" "/" "Work/*"
                 (machine_in authenticated (exampleStore None))
    = Done (mkResponse "a1" OK "LIST completed"
              (list_lines (FV := exampleFlags) [mbReports; mb2024; mbDrafts])
              false)
        (mkMachine (sess (machine_in authenticated (exampleStore None)))
           (walk_calls ["/Work"; "/Work/reports"; "/Work/reports/2024";
                        "/Work/drafts"])
           (walk_log ["/Work"; "/Work/reports"; "/Work/reports/2024";
                      "/Work/drafts"])))
    by (vm_compute; reflexivity).
  split; [exact Hrun|].
  exact (list_queries_below_reference GoRegexpFragment exampleFlags 4
           "a1" "/" "Work/*" _ _ _ Hrun).
Defined.

(* ===================================================================== *)
(** ** Further properties: the filter expression                         *)
(* ===================================================================== *)

Lemma prefix_empty (s : string) : String.prefix EmptyString s = true.
Proof. destruct s; reflexivity. Qed.

Lemma lastIndexFrom_no_delimiter (s : string) :
  no_delimiter s = true ->
  forall i acc : Z, lastIndexFrom s pathDelimiterString i acc = acc.
Proof.
  induction s as [|c s IH]; intros Hs i acc; [reflexivity|].
  cbn [no_delimiter] in Hs. apply andb_true_iff in Hs. destruct Hs as [Hc Hs].
  apply negb_true_iff, Ascii.eqb_neq in Hc.
  assert (Hpre : String.prefix pathDelimiterString (String c s) = false).
  { unfold pathDelimiterString. cbn [String.prefix].
    destruct (ascii_dec pathDelimiter c) as [E | _];
      [congruence | reflexivity]. }
  cbn [lastIndexFrom]. rewrite Hpre. apply IH. exact Hs.
Qed.

Lemma lastIndexFrom_last_delimiter (a rest : string) :
  no_delimiter rest = true ->
  forall i acc : Z,
    lastIndexFrom (a ++ String pathDelimiter rest) pathDelimiterString i acc
    = i + len a.
Proof.
  intros Hrest. induction a as [|c a IH]; intros i acc.
  - assert (Hpre : String.prefix pathDelimiterString
                                  (String pathDelimiter rest) = true).
    { unfold pathDelimiterString. cbn [String.prefix].
      destruct (ascii_dec pathDelimiter pathDelimiter) as [_ | E];
        [apply prefix_empty | congruence]. }
    cbn [append lastIndexFrom]. rewrite Hpre.
    rewrite lastIndexFrom_no_delimiter by exact Hrest.
    unfold len. simpl. lia.
  - change (String c a ++ String pathDelimiter rest)
      with (String c (a ++ String pathDelimiter rest)).
    cbn [lastIndexFrom]. rewrite IH, len_String. lia.
Qed.

Lemma no_delimiter_append (a b : string) :
  no_delimiter (a ++ b) = no_delimiter a && no_delimiter b.
Proof.
  induction a as [|c a IH]; [reflexivity|].
  cbn [append no_delimiter]. rewrite IH, andb_assoc. reflexivity.
Qed.

Lemma substring_skip (a b : string) (k : nat) :
  String.substring (String.length a) k (a ++ b) = String.substring 0 k b.
Proof. induction a as [|c a IH]; [reflexivity|]. exact IH. Qed.

(** X17. For a pattern without delimiter that ends in a wildcard [w] and
    has at least one character [x] before it, say pre.x.w, the resolver
    compiles the expression pre followed by ".*" (the character [x] next to
    the wildcard is not part of it), and then walks the reference itself
    with that filter, recursively exactly when [w] is [*]; when the
    expression does not compile it returns the compile error and makes no
    query. *)
Theorem filter_expression_of_leaf_pattern :
  forall (RL : RegexpLib) (fuel : nat) (reference pre : string)
         (x w : ascii) (m : machine),
    no_delimiter (pre ++ String x EmptyString) = true ->
    w = "*"%char \/ w = "%"%char ->
    session_list fuel reference (pre ++ String x (String w EmptyString)) m
    = match regexp_Compile (pre ++ ".*") with
      | inr err => Done ([], Some err) m
      | inl mboxRe =>
          listMailboxes fuel reference (Some mboxRe) (Ascii.eqb w "*") m
      end.
Proof.
  intros RL fuel reference pre x w m Hnd Hw.
  set (p := pre ++ String x (String w EmptyString)).
  assert (Hp : p = (pre ++ String x EmptyString) ++ String w EmptyString)
    by (subst p; rewrite append_assoc; reflexivity).
  assert (Hlast : last_char p = Some w)
    by (rewrite Hp; apply last_char_append).
  assert (Hwild : Ascii.eqb w "*" || Ascii.eqb w "%" = true)
    by (destruct Hw as [-> | ->]; reflexivity).
  assert (Hndp : no_delimiter p = true).
  { rewrite Hp, no_delimiter_append, Hnd.
    destruct Hw as [-> | ->]; reflexivity. }
  assert (Hld : strings_LastIndex p pathDelimiterString = -1)
    by (apply lastIndexFrom_no_delimiter; exact Hndp).
  assert (Hlen : len p = len pre + 2)
    by (subst p; rewrite len_append, !len_String; unfold len; simpl; lia).
  assert (Hn := len_nonneg pre).
  assert (Hslice : slice p 0 (len p - 1 - 1) = Val pre).
  { rewrite slice_ok by lia.
    replace (Z.to_nat (len p - 1 - 1 - 0)) with (String.length pre)
      by (rewrite Hlen; unfold len; lia).
    change (Z.to_nat 0) with O. subst p. rewrite substring_prefix.
    reflexivity. }
  unfold session_list. fold p. unfold bind at 1 2. unfold lift at 1 2.
  rewrite index_at_last, Hlast, Hwild, Hld.
  replace (len p =? 1) with false by (symmetry; apply Z.eqb_neq; lia).
  change (0 <? -1) with false. cbv iota.
  rewrite Hslice. unfold bind, lift, ret. rewrite append_empty_r.
  destruct (regexp_Compile (pre ++ ".*")); reflexivity.
Qed.

Lemma filter_expression_of_leaf_pattern_witness :
  let m := machine_in authenticated (exampleStore None) in
  no_delimiter ("Wo" ++ String "r" EmptyString) = true
  /\ ("%"%char = "*"%char \/ "%"%char = "%"%char)
  /\ regexp_Compile (RegexpLib := GoRegexpFragment) "Wo.*"
     = inl [(Lit "W", false); (Lit "o", false); (AnyChar, true)]
  /\ session_list (RL := GoRegexpFragment) 1 "/" "Wor%" m
     = listMailboxes (RL := GoRegexpFragment) 1 "/"
         (Some [(Lit "W", false); (Lit "o", false); (AnyChar, true)])
         false m.
Proof.
  cbv zeta.
  assert (Hw : "%"%char = "*"%char \/ "%"%char = "%"%char)
    by (right; reflexivity).
  split; [reflexivity|]. split; [exact Hw|]. split; [reflexivity|].
  exact (filter_expression_of_leaf_pattern GoRegexpFragment 1 "/" "Wo"
           "r" "%" (machine_in authenticated (exampleStore None))
           eq_refl Hw).
Defined.

(** X18. For a pattern parent/pre.x.w with a non-empty parent part, a leaf
    without delimiter and a final wildcard [w], the resolver queries the
    reference extended by the parent part only, and the expression it
    compiles is the delimiter followed by pre and ".*": it begins with the
    delimiter that separates the leaf from its parent and again leaves out
    the character next to the wildcard. *)
Theorem filter_expression_below_parent :
  forall (RL : RegexpLib) (fuel : nat) (reference parent pre : string)
         (x w : ascii) (m : machine),
    parent <> EmptyString ->
    no_delimiter (pre ++ String x EmptyString) = true ->
    w = "*"%char \/ w = "%"%char ->
    session_list fuel reference
      (parent ++ String pathDelimiter
                        (pre ++ String x (String w EmptyString))) m
    = match regexp_Compile (String pathDelimiter pre ++ ".*") with
      | inr err => Done ([], Some err) m
      | inl mboxRe =>
          listMailboxes fuel (reference ++ parent) (Some mboxRe)
                        (Ascii.eqb w "*") m
      end.
Proof.
  intros RL fuel reference parent pre x w m Hparent Hnd Hw.
  set (leaf := pre ++ String x (String w EmptyString)).
  set (p := parent ++ String pathDelimiter leaf).
  assert (Hleaf : leaf = (pre ++ String x EmptyString) ++ String w EmptyString)
    by (subst leaf; rewrite append_assoc; reflexivity).
  assert (Hp : p = (parent ++ String pathDelimiter
                              (pre ++ String x EmptyString))
                   ++ String w EmptyString).
  { subst p. rewrite Hleaf. symmetry.
    exact (append_assoc parent
             (String pathDelimiter (pre ++ String x EmptyString))
             (String w EmptyString)). }
  assert (Hlast : last_char p = Some w)
    by (rewrite Hp; apply last_char_append).
  assert (Hwild : Ascii.eqb w "*" || Ascii.eqb w "%" = true)
    by (destruct Hw as [-> | ->]; reflexivity).
  assert (Hndl : no_delimiter leaf = true).
  { rewrite Hleaf, no_delimiter_append, Hnd.
    destruct Hw as [-> | ->]; reflexivity. }
  assert (Hld : strings_LastIndex p pathDelimiterString = len parent).
  { unfold strings_LastIndex. subst p.
    rewrite lastIndexFrom_last_delimiter by exact Hndl. lia. }
  assert (Hn := len_nonneg pre).
  assert (Hpos : 1 <= len parent).
  { destruct parent as [|c parent]; [congruence|].
    rewrite len_String. assert (H := len_nonneg parent). lia. }
  assert (Hlenleaf : len leaf = len pre + 2)
    by (subst leaf; rewrite len_append, !len_String; unfold len; simpl; lia).
  assert (Hlen : len p = len parent + 1 + len pre + 2).
  { subst p. rewrite len_append, len_String, Hlenleaf. lia. }
  assert (Hslice1 : slice p 0 (len parent) = Val parent).
  { rewrite slice_ok by lia.
    replace (Z.to_nat (len parent - 0)) with (String.length parent)
      by (unfold len; lia).
    change (Z.to_nat 0) with O. subst p. rewrite substring_prefix.
    reflexivity. }
  assert (Hslice2 : slice p (len parent) (len p - 1 - 1)
                    = Val (String pathDelimiter pre)).
  { rewrite slice_ok by lia.
    replace (Z.to_nat (len parent)) with (String.length parent)
      by (unfold len; lia).
    replace (Z.to_nat (len p - 1 - 1 - len parent))
      with (S (String.length pre)) by (rewrite Hlen; unfold len; lia).
    subst p. rewrite substring_skip. cbn [String.substring].
    subst leaf. rewrite substring_prefix. reflexivity. }
  unfold session_list. fold leaf. fold p.
  unfold bind at 1 2. unfold lift at 1 2.
  rewrite index_at_last, Hlast, Hwild, Hld.
  replace (len p =? 1) with false by (symmetry; apply Z.eqb_neq; lia).
  replace (0 <? len parent) with true by (symmetry; apply Z.ltb_lt; lia).
  rewrite Hslice1, Hslice2. unfold bind, lift, ret.
  destruct (regexp_Compile (String pathDelimiter pre ++ ".*")); reflexivity.
Qed.

Lemma filter_expression_below_parent_witness :
  let m := machine_in authenticated (exampleStore None) in
  "Work" <> EmptyString
  /\ no_delimiter ("r" ++ String "e" EmptyString) = true
  /\ ("%"%char = "*"%char \/ "%"%char = "%"%char)
  /\ regexp_Compile (RegexpLib := GoRegexpFragment) "/r.*"
     = inl [(Lit "/", false); (Lit "r", false); (AnyChar, true)]
  /\ session_list (RL := GoRegexpFragment) 1 "/" "Work/re%" m
     = listMailboxes (RL := GoRegexpFragment) 1 "/Work"
         (Some [(Lit "/", false); (Lit "r", false); (AnyChar, true)])
         false m.
Proof.
  cbv zeta.
  assert (Hparent : "Work" <> EmptyString) by discriminate.
  assert (Hw : "%"%char = "*"%char \/ "%"%char = "%"%char)
    by (right; reflexivity).
  split; [exact Hparent|]. split; [reflexivity|]. split; [exact Hw|].
  split; [reflexivity|].
  exact (filter_expression_below_parent GoRegexpFragment 1 "/" "Work" "r"
           "e" "%" (machine_in authenticated (exampleStore None))
           Hparent eq_refl Hw).
Defined.

(* ===================================================================== *)
(** ** Further properties: LIST end to end                               *)
(* ===================================================================== *)

Lemma filter_kept_all {RL : RegexpLib} (re : Regexp) (l : list Mailbox) :
  (forall s, MatchString re s = true) ->
  filter (kept (Some re)) l = l.
Proof.
  intros Hall. induction l as [|x l IH]; [reflexivity|].
  cbn [filter kept]. rewrite Hall, IH. reflexivity.
Qed.

Lemma match_anywhere_any_star (s : string) :
  match_anywhere [(AnyChar, true)] s = true.
Proof. destruct s; reflexivity. Qed.

(** X19. With a regular expression library in which ".*" compiles to an
    expression that matches every string, LIST with the pattern "%" in the
    Authenticated state makes exactly one query, at the reference with its
    trailing delimiter added. When the query fails it answers NO with the
    error text and the close flag; when the Mailstore lists no mailbox
    there it answers NO "LIST no results"; otherwise it answers OK with one
    line for every mailbox listed there, in the Mailstore's order, each
    made of the flag tokens of its mailbox, joined by commas in some order,
    and of its path. *)
Theorem list_percent_lists_one_level :
  forall (RL : RegexpLib) (FV : FlagVocabulary) (fuel : nat)
         (t reference ref' : string) (re : Regexp) (m : machine),
    st (sess m) = authenticated ->
    addTrailingDelimiter reference = Val ref' ->
    regexp_Compile ".*" = inl re ->
    (forall s, MatchString re s = true) ->
    match GetMailboxes (config_Mailstore (config (sess m))) ref' with
    | (_, Some err) =>
        list_execute (S fuel) t reference "%" m
        = Done (shouldClose (no t ("LIST " ++ err)))
               (after_log (after_query m ref') ("LIST " ++ err))
    | ([], None) =>
        list_execute (S fuel) t reference "%" m
        = Done (no t "LIST no results") (after_query m ref')
    | (current, None) =>
        exists lines : list string,
          list_execute (S fuel) t reference "%" m
          = Done (mkResponse t OK "LIST completed" lines false)
                 (after_query m ref')
          /\ lines_for lines current
    end.
Proof.
  intros RL FV fuel t reference ref' re m Hst Hadd Hcomp Hall.
  assert (Hlist : session_list (S fuel) ref' "%" m
                  = listMailboxes (S fuel) ref' (Some re) false m).
  { unfold session_list, bind, lift, ret. cbn -[listMailboxes regexp_Compile].
    rewrite Hcomp, append_empty_r. reflexivity. }
  rewrite listMailboxes_flat in Hlist.
  assert (Hrun : list_execute (S fuel) t reference "%" m
                 = bind (session_list (S fuel) ref' "%")
                     (fun r =>
                        match r with
                        | (_, Some err) => internalError t "LIST" err
                        | (mboxes, None) =>
                            if len_list_is_zero mboxes
                            then ret (no t "LIST no results")
                            else ret (fold_left
                                        (fun res mbox =>
                                           extra res
                                             (list_line (joinMailboxFlags mbox)
                                                        (Path mbox)))
                                        mboxes (ok t "LIST completed"))
                        end) m).
  { unfold list_execute. unfold bind at 1. unfold get_sess. rewrite Hst.
    cbn [state_eqb negb String.eqb Ascii.eqb Bool.eqb].
    unfold bind at 1. rewrite Hadd. cbn [lift].
    unfold bind at 1. change (removeDelimiters "%") with (Val "%").
    reflexivity. }
  destruct (GetMailboxes (config_Mailstore (config (sess m))) ref')
    as [current [err|]].
  - assert (E : list_execute (S fuel) t reference "%" m
                = Done (shouldClose (no t ("LIST " ++ err)))
                       (after_log (after_query m ref') ("LIST " ++ err))).
    { rewrite Hrun. unfold bind at 1. rewrite Hlist. reflexivity. }
    destruct current; exact E.
  - rewrite (filter_kept_all re current Hall) in Hlist.
    destruct current as [|mb rest].
    + rewrite Hrun. unfold bind at 1. rewrite Hlist. reflexivity.
    + exists (list_lines (mb :: rest)).
      split; [|apply lines_for_list_lines].
      rewrite Hrun. unfold bind at 1. rewrite Hlist.
      unfold len_list_is_zero. cbn [List.length].
      replace (Z.of_nat (S (List.length rest)) =? 0) with false
        by (symmetry; apply Z.eqb_neq; lia).
      unfold ret. rewrite fold_extra. reflexivity.
Qed.

Lemma list_percent_lists_one_level_witness :
  let m := machine_in authenticated (exampleStore None) in
  st (sess m) = authenticated
  /\ addTrailingDelimiter "/" = Val "/"
  /\ regexp_Compile (RegexpLib := GoRegexpFragment) ".*"
     = inl [(AnyChar, true)]
  /\ (forall s, MatchString (RegexpLib := GoRegexpFragment)
                            [(AnyChar, true)] s = true)
  /\ exists lines : list string,
       list_execute (RL := GoRegexpFragment) (FV := exampleFlags)
                    1 "a1" "/" "%" m
       = Done (mkResponse "a1" OK "LIST completed" lines false)
              (after_query m "/")
       /\ lines_for (FV := exampleFlags) lines [mbInbox; mbWork; mbApple].
Proof.
  cbv zeta. do 3 (split; [reflexivity|]).
  split; [exact match_anywhere_any_star|].
  exact (list_percent_lists_one_level GoRegexpFragment exampleFlags 0
           "a1" "/" "/" [(AnyChar, true)]
           (machine_in authenticated (exampleStore None))
           eq_refl eq_refl eq_refl match_anywhere_any_star).
Defined.

(** X20. Whatever the flag table, a mailbox with no flag bit set gets the
    empty flag list, and a table entry whose bit pattern is zero is never
    reported: the flag list is the same with such entries removed from the
    table. *)
Theorem joinMailboxFlags_zero_bits :
  forall (table : list (Z * string)) (m : Mailbox),
    (Flags m = 0 ->
     joinMailboxFlags (FV := Build_FlagVocabulary table) m = EmptyString)
    /\ joinMailboxFlags (FV := Build_FlagVocabulary table) m
       = joinMailboxFlags
           (FV := Build_FlagVocabulary
                    (filter (fun entry => negb (fst entry =? 0)) table)) m.
Proof.
  intros table m. unfold joinMailboxFlags. cbn [mailboxFlags]. split.
  - intros H. rewrite H.
    assert (E : filter (fun entry : Z * string =>
                          negb (Z.land 0 (fst entry) =? 0)) table = [])
      by (induction table as [|e l IH]; [reflexivity | exact IH]).
    rewrite E. reflexivity.
  - f_equal. f_equal. induction table as [|e l IH]; [reflexivity|].
    cbn [filter]. destruct (fst e =? 0) eqn:E0; cbn [negb].
    + apply Z.eqb_eq in E0. rewrite E0, Z.land_0_r. cbn. exact IH.
    + cbn [filter].
      destruct (negb (Z.land (Flags m) (fst e) =? 0)); [f_equal|]; exact IH.
Qed.

Lemma joinMailboxFlags_zero_bits_witness :
  let m := mkMailbox "plain" "/plain" 11 0 in
  Flags m = 0
  /\ joinMailboxFlags (FV := Build_FlagVocabulary (mailboxFlags (FlagVocabulary := exampleFlags))) m
     = EmptyString.
Proof.
  cbv zeta. split; [reflexivity|].
  exact (proj1 (joinMailboxFlags_zero_bits
                  (mailboxFlags (FlagVocabulary := exampleFlags))
                  (mkMailbox "plain" "/plain" 11 0)) eq_refl).
Defined.

(* ===================================================================== *)
(** ** Further properties: the resolver over segment lists               *)
(* ===================================================================== *)

Module SegmentsFacts.

Import Segments.

Lemma len_slice_app (a b : list string) :
  len_slice (a ++ b) = len_slice a + len_slice b.
Proof. unfold len_slice. rewrite length_app. lia. Qed.

Lemma len_slice_nonneg (l : list string) : 0 <= len_slice l.
Proof. unfold len_slice. lia. Qed.

(** The last element of a slice, by index. *)
Lemma at_index_last (parents : list string) (leaf : string) :
  at_index (parents ++ [leaf]) (len_slice (parents ++ [leaf]) - 1) = Val leaf.
Proof.
  unfold at_index. rewrite len_slice_app.
  assert (H := len_slice_nonneg parents). change (len_slice [leaf]) with 1.
  replace (len_slice parents + 1 - 1 <? 0) with false
    by (symmetry; apply Z.ltb_ge; lia).
  replace (len_slice parents + 1 <=? len_slice parents + 1 - 1) with false
    by (symmetry; apply Z.leb_gt; lia).
  cbn [orb]. replace (Z.to_nat (len_slice parents + 1 - 1))
    with (List.length parents) by (unfold len_slice; lia).
  rewrite nth_error_app2, Nat.sub_diag by lia. reflexivity.
Qed.

(** All the elements before the last one, by slicing. *)
Lemma sub_slice_front (parents : list string) (leaf : string) :
  sub_slice (parents ++ [leaf]) 0 (len_slice (parents ++ [leaf]) - 1)
  = Val parents.
Proof.
  unfold sub_slice. rewrite len_slice_app.
  assert (H := len_slice_nonneg parents). change (len_slice [leaf]) with 1.
  replace (len_slice parents + 1 - 1 <? 0) with false
    by (symmetry; apply Z.ltb_ge; lia).
  replace (len_slice parents + 1 <? len_slice parents + 1 - 1) with false
    by (symmetry; apply Z.ltb_ge; lia).
  cbn [Z.ltb Z.compare orb]. change (Z.to_nat 0) with O. cbn [skipn].
  replace (Z.to_nat (len_slice parents + 1 - 1 - 0))
    with (List.length parents + 0)%nat by (unfold len_slice; lia).
  rewrite firstn_app_2. cbn [firstn]. rewrite app_nil_r. reflexivity.
Qed.

Section Facts.

Context {RL : RegexpLib}.

Lemma segment_loop_flat
    (self : list string -> M (list Mailbox * option error))
    (path : list string) (mboxRe : option Regexp) (current : list Mailbox) :
  forall (ret_ : list Mailbox) (m : machine),
    listMailboxes_loop self path mboxRe false current ret_ m
    = Done ((ret_ ++ filter (kept mboxRe) current)%list, None) m.
Proof.
  induction current as [|mbox rest IH]; intros ret_ m; simpl.
  - rewrite app_nil_r. reflexivity.
  - unfold kept at 1. destruct mboxRe as [re|].
    + destruct (MatchString re (Name mbox)); simpl.
      * rewrite IH, <- app_assoc. reflexivity.
      * apply IH.
    + rewrite IH, <- app_assoc. reflexivity.
Qed.

Lemma segment_walk_flat (fuel : nat) (path : list string)
    (mboxRe : option Regexp) (m : machine) :
  listMailboxes (S fuel) path mboxRe false m
  = match GetMailboxes (store m) path with
    | (_, Some err) => Done ([], Some err) (after_query m path)
    | (current, None) =>
        Done (filter (kept mboxRe) current, None) (after_query m path)
    end.
Proof.
  cbn [listMailboxes]. unfold bind, log_Print, query, after_query.
  cbn [store calls logged].
  destruct (GetMailboxes (store m) path) as [current [err|]];
    [reflexivity|].
  rewrite segment_loop_flat. reflexivity.
Qed.

Lemma segment_loop_no_panic
    (self : list string -> M (list Mailbox * option error))
    (path : list string) (mboxRe : option Regexp) (recursive : bool) :
  (forall p m, self p m <> Panicked) ->
  forall (current ret_ : list Mailbox) (m : machine),
    listMailboxes_loop self path mboxRe recursive current ret_ m <> Panicked.
Proof.
  intros Hself. induction current as [|mbox rest IH]; intros ret_ m;
    cbn [listMailboxes_loop]; [discriminate|].
  destruct (match mboxRe with
            | Some re => negb (MatchString re (Name mbox))
            | None => false
            end); [apply IH|].
  destruct recursive; [|apply IH].
  unfold bind. specialize (Hself (path ++ [Name mbox])%list m).
  destruct (self (path ++ [Name mbox])%list m) as [[next [err|]] m1| |];
    try discriminate; try congruence; apply IH.
Qed.

(** This version of the walk indexes nothing and cannot panic. *)
Lemma segment_walk_no_panic (fuel : nat) :
  forall (path : list string) (mboxRe : option Regexp) (recursive : bool)
         (m : machine),
    listMailboxes fuel path mboxRe recursive m <> Panicked.
Proof.
  induction fuel as [|fuel IH]; intros path mboxRe recursive m;
    cbn [listMailboxes]; [discriminate|].
  unfold bind, log_Print, query. cbn [store calls logged].
  destruct (GetMailboxes (store m) path) as [current [err|]];
    [discriminate|].
  apply segment_loop_no_panic. intros p m0. apply IH.
Qed.

(** The pattern has a last segment [leaf], with last character [c]. *)
Lemma session_list_leaf (fuel : nat) (reference parents : list string)
    (leaf : string) (c : ascii) (m : machine) :
  last_char leaf = Some c ->
  session_list fuel reference (parents ++ [leaf]) m
  = if Ascii.eqb c "*" || Ascii.eqb c "%"
    then bind (if len leaf =? 1 then ret ".*"
               else bind (lift (slice leaf 0 (len leaf - 1 - 1)))
                         (fun pre => ret (pre ++ ".*")))
              (fun expr =>
                 match regexp_Compile expr with
                 | inr err => ret ([], Some err)
                 | inl mboxRe =>
                     listMailboxes fuel (reference ++ parents)
                                   (Some mboxRe) (Ascii.eqb c "*")
                 end) m
    else listMailboxes fuel (reference ++ [leaf]) None (Ascii.eqb c "*") m.
Proof.
  intros Hc. unfold session_list.
  assert (Hn := len_slice_nonneg parents).
  assert (Hlen : len_slice (parents ++ [leaf]) = len_slice parents + 1)
    by (rewrite len_slice_app; reflexivity).
  replace (len_slice (parents ++ [leaf]) =? 0) with false
    by (symmetry; apply Z.eqb_neq; lia).
  unfold bind at 1. rewrite at_index_last. cbn [lift].
  unfold bind at 1 2. rewrite index_at_last, Hc. cbn [lift].
  destruct (Ascii.eqb c "*" || Ascii.eqb c "%"); [|reflexivity].
  unfold bind at 1.
  destruct (0 <? len_slice (parents ++ [leaf]) - 1) eqn:E.
  - unfold bind at 1. rewrite sub_slice_front. reflexivity.
  - apply Z.ltb_ge in E. destruct parents as [|p parents].
    + cbn [ret]. rewrite app_nil_r. reflexivity.
    + exfalso. unfold len_slice in *. cbn [List.length] in *. lia.
Qed.

End Facts.

(** X21. In the segment version an empty pattern is a lookup at the
    reference: one query there, no filter, no recursion, and the answer of
    the Mailstore is returned as it is. *)
Theorem list_empty_pattern_is_a_lookup :
  forall (RL : RegexpLib) (fuel : nat) (reference : list string)
         (m : machine),
    session_list (S fuel) reference [] m
    = match GetMailboxes (store m) reference with
      | (_, Some err) => Done ([], Some err) (after_query m reference)
      | (current, None) => Done (current, None) (after_query m reference)
      end.
Proof.
  intros RL fuel reference m. unfold session_list.
  change (len_slice [] =? 0) with true. cbv iota.
  rewrite segment_walk_flat.
  destruct (GetMailboxes (store m) reference) as [current [err|]];
    [reflexivity|].
  rewrite filter_kept_None. reflexivity.
Qed.

(** X22. In the segment version a pattern whose last segment does not end
    in a wildcard is looked up at the reference followed by that last
    segment alone: the segments before it are not part of the path
    queried. One query is made, without filter or recursion. *)
Theorem literal_pattern_keeps_only_the_leaf :
  forall (RL : RegexpLib) (fuel : nat) (reference parents : list string)
         (leaf : string) (c : ascii) (m : machine),
    last_char leaf = Some c ->
    c <> "*"%char -> c <> "%"%char ->
    session_list (S fuel) reference (parents ++ [leaf]) m
    = match GetMailboxes (store m) (reference ++ [leaf]) with
      | (_, Some err) =>
          Done ([], Some err) (after_query m (reference ++ [leaf]))
      | (current, None) =>
          Done (current, None) (after_query m (reference ++ [leaf]))
      end.
Proof.
  intros RL fuel reference parents leaf c m Hc H1 H2.
  rewrite (session_list_leaf _ _ _ _ c) by exact Hc.
  apply Ascii.eqb_neq in H1, H2. rewrite H1, H2. cbn [orb].
  rewrite segment_walk_flat.
  destruct (GetMailboxes (store m) (reference ++ [leaf]))
    as [current [err|]]; [reflexivity|].
  rewrite filter_kept_None. reflexivity.
Qed.

Lemma literal_pattern_keeps_only_the_leaf_witness :
  last_char "reports" = Some "s"%char
  /\ "s"%char <> "*"%char /\ "s"%char <> "%"%char
  /\ session_list (RL := GoRegexpFragment) 1 [] ["Work"; "reports"]
                  exampleMachine
     = Done ([], None) (after_query exampleMachine ["reports"])
  /\ GetMailboxes exampleStore ["Work"; "reports"] = ([mb2024], None).
Proof.
  assert (H1 : "s"%char <> "*"%char) by discriminate.
  assert (H2 : "s"%char <> "%"%char) by discriminate.
  split; [reflexivity|]. split; [exact H1|]. split; [exact H2|].
  split; [|reflexivity].
  exact (literal_pattern_keeps_only_the_leaf GoRegexpFragment 0 []
           ["Work"] "reports" "s" exampleMachine eq_refl H1 H2).
Defined.

(** X23. In the segment version, for a pattern whose last segment is
    pre.x.w with [w] a wildcard, the resolver compiles the expression pre
    followed by ".*" (the character [x] next to the wildcard is not part
    of it) and walks the reference followed by the segments before the
    last one, with that filter, recursively exactly when [w] is [*]; when
    the expression does not compile it returns the error and makes no
    query. *)
Theorem wildcard_pattern_walks_the_parent :
  forall (RL : RegexpLib) (fuel : nat) (reference parents : list string)
         (pre : string) (x w : ascii) (m : machine),
    w = "*"%char \/ w = "%"%char ->
    session_list fuel reference
      (parents ++ [pre ++ String x (String w EmptyString)]) m
    = match regexp_Compile (pre ++ ".*") with
      | inr err => Done ([], Some err) m
      | inl mboxRe =>
          listMailboxes fuel (reference ++ parents) (Some mboxRe)
                        (Ascii.eqb w "*") m
      end.
Proof.
  intros RL fuel reference parents pre x w m Hw.
  set (leaf := pre ++ String x (String w EmptyString)).
  assert (Hleaf : leaf = (pre ++ String x EmptyString) ++ String w EmptyString)
    by (subst leaf; rewrite append_assoc; reflexivity).
  assert (Hlast : last_char leaf = Some w)
    by (rewrite Hleaf; apply last_char_append).
  rewrite (session_list_leaf _ _ _ _ w) by exact Hlast.
  replace (Ascii.eqb w "*" || Ascii.eqb w "%") with true
    by (destruct Hw as [-> | ->]; reflexivity).
  assert (Hn := len_nonneg pre).
  assert (Hlen : len leaf = len pre + 2)
    by (subst leaf; rewrite len_append, !len_String; unfold len; simpl; lia).
  replace (len leaf =? 1) with false by (symmetry; apply Z.eqb_neq; lia).
  rewrite slice_ok by lia.
  replace (Z.to_nat (len leaf - 1 - 1 - 0)) with (String.length pre)
    by (rewrite Hlen; unfold len; lia).
  change (Z.to_nat 0) with O. subst leaf. rewrite substring_prefix.
  unfold bind, lift, ret.
  destruct (regexp_Compile (pre ++ ".*")); reflexivity.
Qed.

Lemma wildcard_pattern_walks_the_parent_witness :
  ("%"%char = "*"%char \/ "%"%char = "%"%char)
  /\ session_list (RL := GoRegexpFragment) 1 [] ["Work"; "re%"]
                  exampleMachine
     = Done ([mbReports; mbDrafts], None) (after_query exampleMachine ["Work"])
  /\ String.prefix "re" (Name mbDrafts) = false.
Proof.
  assert (Hw : "%"%char = "*"%char \/ "%"%char = "%"%char)
    by (right; reflexivity).
  split; [exact Hw|]. split; [|reflexivity].
  exact (wildcard_pattern_walks_the_parent GoRegexpFragment 1 []
           ["Work"] "r" "e" "%" exampleMachine Hw).
Defined.

(** X24. The segment version panics exactly when the pattern has a last
    segment and that segment is the empty string; in particular it does
    not panic on the empty pattern, and its walk never panics. *)
Theorem segment_list_panics_iff :
  forall (RL : RegexpLib) (fuel : nat) (reference mbox : list string)
         (m : machine),
    session_list fuel reference mbox m = Panicked
    <-> exists parents : list string, mbox = (parents ++ [EmptyString])%list.
Proof.
  intros RL fuel reference mbox m.
  destruct mbox as [|seg0 segs].
  { split.
    - unfold session_list. change (len_slice [] =? 0) with true. cbv iota.
      intros H. exfalso. exact (segment_walk_no_panic _ _ _ _ _ H).
    - intros [parents H]. destruct parents; discriminate. }
  destruct (@exists_last _ (seg0 :: segs)) as [parents [leaf E]];
    [discriminate|].
  rewrite E. clear E seg0 segs.
  destruct (last_char leaf) as [c|] eqn:Hc.
  - split.
    + rewrite (session_list_leaf _ _ _ _ c) by exact Hc.
      intros H. exfalso. revert H.
      destruct (Ascii.eqb c "*" || Ascii.eqb c "%");
        [|apply segment_walk_no_panic].
      assert (Hl := last_char_len _ _ Hc).
      unfold bind at 1. destruct (len leaf =? 1) eqn:E1.
      * cbn [ret]. destruct (regexp_Compile ".*");
          [apply segment_walk_no_panic | discriminate].
      * apply Z.eqb_neq in E1. unfold bind at 1.
        rewrite slice_ok by lia. cbn [lift ret].
        match goal with
        | |- match regexp_Compile ?e with _ => _ end _ = _ -> _ =>
            destruct (regexp_Compile e);
              [apply segment_walk_no_panic | discriminate]
        end.
    + intros [parents' H]. apply app_inj_tail in H. destruct H as [_ ->].
      discriminate.
  - assert (leaf = EmptyString) as ->.
    { destruct leaf as [|x leaf]; [reflexivity|].
      destruct (last_char_nonempty (String x leaf)) as [d Hd];
        [discriminate | congruence]. }
    split; [intros _; exists parents; reflexivity|]. intros _.
    unfold session_list.
    assert (Hn := len_slice_nonneg parents).
    replace (len_slice (parents ++ [EmptyString]) =? 0) with false
      by (symmetry; apply Z.eqb_neq; rewrite len_slice_app;
          change (len_slice [EmptyString]) with 1; lia).
    unfold bind at 1. rewrite at_index_last. reflexivity.
Qed.

End SegmentsFacts.
